(** * gen_pdf_wk.js: the document bundle compiler of gitbook-pdfgen

    A shallow embedding of [src/gen_pdf_wk.js] and the properties its
    specification states about it.

    - JavaScript strings are [string]; a [Number] is an IEEE binary64 value,
      a [spec_float] with precision 53 and maximal exponent 1024.
    - A thrown exception is the [Throw] of a [result]; a promise is the
      state it has once the event loop is idle.
    - What the script takes from Node and from npm packages ([path],
      [file-url], [less], [fs], [htmltidy], [xmldom], [xpath]) is a field of
      the class [Platform]. The module [Posix] gives one reading of the
      [path] functions, and the module [Sample] a platform built on it, to
      evaluate the definitions on concrete inputs. *)

From Stdlib Require Import Ascii String Floats.SpecFloat.
From stdpp Require Import base option list strings pretty gmap.

(** ** Errors and results *)

(** [Error message] is a [new Error(message)]. A [TypeError] is raised by
    the runtime or by a package; it carries the operation that raised it, in
    the place of a message that changes from one version to the next. *)
Inductive error : Type :=
  | Error (message : string)
  | TypeError (operation : string).

Inductive result (A : Type) : Type :=
  | Ok (a : A)
  | Throw (e : error).
Arguments Ok {A} a.
Arguments Throw {A} e.

#[global] Instance result_ret : MRet result := λ A a, Ok a.
#[global] Instance result_bind : MBind result := λ A B k r,
  match r with
  | Ok a => k a
  | Throw e => Throw e
  end.
#[global] Instance result_fmap : FMap result := λ A B f r,
  match r with
  | Ok a => Ok (f a)
  | Throw e => Throw e
  end.

(** ** Numbers *)

Definition number : Type := spec_float.

(** [Number(s)] for [s] a string of decimal digits whose value is [n], with
    the sign given apart: the binary64 nearest to [n], ties to even. *)
Definition Number_of_digits (neg : bool) (n : N) : number :=
  match n with
  | N0 => S754_zero neg
  | Npos p => binary_normalize 53 1024 (if neg then Zneg p else Zpos p) 0 false
  end.

Definition number_of_Z (z : Z) : number := binary_normalize 53 1024 z 0 false.

(** ** Strings *)

Definition quote : string := String "034"%char "".

Definition is_digit (c : ascii) : bool :=
  let n := nat_of_ascii c in (48 <=? n)%nat && (n <=? 57)%nat.

Definition is_upper (c : ascii) : bool :=
  let n := nat_of_ascii c in (65 <=? n)%nat && (n <=? 90)%nat.

Definition lower_ascii (c : ascii) : ascii :=
  if is_upper c then ascii_of_nat (nat_of_ascii c + 32) else c.

(** [s.toLowerCase()] on the ASCII letters. No other character lowers to one
    of the letters of [.less] and [.xsl], the only strings its result is
    compared with. *)
Fixpoint toLowerCase (s : string) : string :=
  match s with
  | "" => ""
  | String c r => String (lower_ascii c) (toLowerCase r)
  end.

Fixpoint all_chars (p : ascii → bool) (s : string) : bool :=
  match s with
  | "" => true
  | String c r => p c && all_chars p r
  end.

Fixpoint digits_value (acc : N) (s : string) : N :=
  match s with
  | "" => acc
  | String c r => digits_value (10 * acc + N.of_nat (nat_of_ascii c - 48))%N r
  end.

(** ** filterInt *)

(** The alternative [([0-9]+|Infinity)] anchored at the end of the input. *)
Definition int_body (s : string) : bool :=
  (negb (String.eqb s "") && all_chars is_digit s) || String.eqb s "Infinity".

(** [/^(\-|\+)?([0-9]+|Infinity)$/.test(value)]: the optional sign is tried
    first, then the match without it. *)
Definition filterInt_test (value : string) : bool :=
  match value with
  | String c r =>
      ((Ascii.eqb c "-" || Ascii.eqb c "+") && int_body r) || int_body value
  | "" => int_body value
  end.

(** [Number(value)] on the strings [filterInt_test] lets through. *)
Definition Number_of_int_literal (value : string) : number :=
  let '(neg, body) :=
    match value with
    | String c r =>
        if Ascii.eqb c "-" then (true, r)
        else if Ascii.eqb c "+" then (false, r)
        else (false, value)
    | "" => (false, value)
    end in
  if String.eqb body "Infinity" then S754_infinity neg
  else Number_of_digits neg (digits_value 0 body).

Definition filterInt (value : string) : result number :=
  if filterInt_test value then Ok (Number_of_int_literal value)
  else Throw (Error ("Unable to parse " +:+ quote +:+ value +:+ quote
                       +:+ " as an integer.")).

(** ** String.prototype.replace *)

Fixpoint strip_prefix (p s : string) : option string :=
  match p, s with
  | "", _ => Some s
  | String a p', String b s' => if Ascii.eqb a b then strip_prefix p' s' else None
  | String _ _, "" => None
  end.

(** The text before and after the first occurrence of [pat] in [s]. *)
Fixpoint split_first (pat s : string) : option (string * string) :=
  match strip_prefix pat s with
  | Some rest => Some ("", rest)
  | None =>
      match s with
      | "" => None
      | String c r =>
          match split_first pat r with
          | Some (before, after) => Some (String c before, after)
          | None => None
          end
      end
  end.

(** The replacement text of a match of a pattern without capture groups:
    [$$], [$&], [$`] and [$'] are expanded, every other character stands
    for itself. *)
Fixpoint GetSubstitution (matched before after template : string) : string :=
  match template with
  | "" => ""
  | String d t =>
      if Ascii.eqb d "$" then
        match t with
        | "" => "$"
        | String c r =>
            if Ascii.eqb c "$" then String "$" (GetSubstitution matched before after r)
            else if Ascii.eqb c "&" then matched +:+ GetSubstitution matched before after r
            else if Ascii.eqb c "`" then before +:+ GetSubstitution matched before after r
            else if Ascii.eqb c "'" then after +:+ GetSubstitution matched before after r
            else String "$" (GetSubstitution matched before after t)
        end
      else String d (GetSubstitution matched before after t)
  end.

(** [s.replace(pat, template)] for a string [pat]: the first occurrence
    only. *)
Definition replace (pat template s : string) : string :=
  match split_first pat s with
  | None => s
  | Some (before, after) =>
      before +:+ GetSubstitution pat before after template +:+ after
  end.

(** Every occurrence replaced, as the specification's [%20] rule has it.
    Not a function of the program. *)
Fixpoint replace_all_fuel (fuel : nat) (pat by_ s : string) : string :=
  match fuel with
  | O => s
  | S fuel' =>
      match split_first pat s with
      | None => s
      | Some (before, after) => before +:+ by_ +:+ replace_all_fuel fuel' pat by_ after
      end
  end.

Definition replace_all (pat by_ s : string) : string :=
  replace_all_fuel (String.length s) pat by_ s.

(** [dest.replace(/\.less$/, '.css')] *)
Fixpoint replace_less_ext (dest : string) : string :=
  if String.eqb dest ".less" then ".css"
  else match dest with
       | "" => ""
       | String c r => String c (replace_less_ext r)
       end.

Fixpoint ends_with (suffix s : string) : bool :=
  String.eqb s suffix ||
  match s with
  | "" => false
  | String _ r => ends_with suffix r
  end.

(** [url.replace(new RegExp('^file:///[A-Z]:/'), match => match.toLowerCase())] *)
Definition lower_drive_letter (url : string) : string :=
  match strip_prefix "file:///" url with
  | Some (String c (String colon (String slash rest))) =>
      if is_upper c && Ascii.eqb colon ":" && Ascii.eqb slash "/"
      then "file:///" +:+ String (lower_ascii c) (String ":" (String "/" rest))
      else url
  | _ => url
  end.

(** ** A POSIX reading of Node's [path]

    Paths are split at [/] into segments. [relative] resolves its arguments
    against the root directory, which gives Node's answer whenever both are
    absolute or both are relative. *)
Module Posix.

Fixpoint split_go (cur : string) (s : string) : list string :=
  match s with
  | "" => [cur]
  | String c r =>
      if Ascii.eqb c "/" then cur :: split_go "" r
      else split_go (cur +:+ String c "") r
  end.

Definition segments (p : string) : list string :=
  filter (λ seg, seg ≠ "") (split_go "" p).

Definition is_absolute (p : string) : bool :=
  match p with
  | String c _ => Ascii.eqb c "/"
  | "" => false
  end.

(** Resolution of [.] and [..]; [acc] holds the kept segments, last
    first. *)
Fixpoint normalize_segments (absolute : bool) (acc segs : list string)
  : list string :=
  match segs with
  | [] => rev acc
  | seg :: rest =>
      if String.eqb seg "." then normalize_segments absolute acc rest
      else if String.eqb seg ".." then
        match acc with
        | last :: acc' =>
            if String.eqb last ".." then normalize_segments absolute (seg :: acc) rest
            else normalize_segments absolute acc' rest
        | [] =>
            if absolute then normalize_segments absolute acc rest
            else normalize_segments absolute (seg :: acc) rest
        end
      else normalize_segments absolute (seg :: acc) rest
  end.

Fixpoint join_segments (segs : list string) : string :=
  match segs with
  | [] => ""
  | [seg] => seg
  | seg :: rest => seg +:+ "/" +:+ join_segments rest
  end.

Definition normalize (p : string) : string :=
  if String.eqb p "" then "."
  else
    let absolute := is_absolute p in
    let trailing := ends_with "/" p in
    let body := join_segments (normalize_segments absolute [] (segments p)) in
    let body :=
      if String.eqb body "" then (if absolute then "" else ".")
      else if trailing then body +:+ "/" else body in
    if absolute then "/" +:+ body else body.

Definition join (a b : string) : string :=
  if String.eqb a "" then normalize b
  else if String.eqb b "" then normalize a
  else normalize (a +:+ "/" +:+ b).

Definition basename (p : string) : string :=
  default "" (last (segments p)).

(** The text from the last [.] of [name], when that dot is not its first
    character. *)
Fixpoint ext_go (name : string) : option string :=
  match name with
  | "" => None
  | String c r =>
      match ext_go r with
      | Some e => Some e
      | None => if Ascii.eqb c "." then Some name else None
      end
  end.

Definition extname (p : string) : string :=
  match basename p with
  | "" => ""
  | String c r =>
      if String.eqb (String c r) ".." then ""
      else default "" (ext_go r)
  end.

Fixpoint drop_common (a b : list string) : list string * list string :=
  match a, b with
  | x :: a', y :: b' => if String.eqb x y then drop_common a' b' else (a, b)
  | _, _ => (a, b)
  end.

Definition relative (from to : string) : string :=
  let resolve p := normalize_segments true [] (segments p) in
  let '(up, down) := drop_common (resolve from) (resolve to) in
  join_segments (map (λ _, "..") up ++ down).

End Posix.

(** ** Map and Set objects

    A [Map] keeps its entries in insertion order; [set] on a key that is
    present changes the value in place. *)
Module JsMap.

Definition t (V : Type) : Type := list (string * V).

Fixpoint get {V} (k : string) (m : t V) : option V :=
  match m with
  | [] => None
  | (k', v) :: m' => if String.eqb k' k then Some v else get k m'
  end.

Fixpoint set {V} (k : string) (v : V) (m : t V) : t V :=
  match m with
  | [] => [(k, v)]
  | (k', v') :: m' =>
      if String.eqb k' k then (k, v) :: m' else (k', v') :: set k v m'
  end.

Definition keys {V} (m : t V) : list string := m.*1.
Definition values {V} (m : t V) : list V := m.*2.

End JsMap.

(** [new Set(l)], enumerated: each value once, at its first position. *)
Definition Set_from (l : list string) : list string :=
  foldl (λ seen x, if decide (x ∈ seen) then seen else seen ++ [x]) [] l.

(** ** Configuration and command line *)

(** An argument handed to the renderer: a string, or a number not yet
    converted. *)
Inductive token : Type :=
  | TStr (s : string)
  | TNum (x : number).

(** A value that may be missing. The empty string is falsy like
    [undefined]. *)
Definition truthy (v : option string) : option string :=
  match v with
  | Some s => if String.eqb s "" then None else Some s
  | None => None
  end.

Record margin_config : Type := {
  top : token;
  bottom : token;
  left : token;
  right : token;
}.

Record section_config : Type := {
  contentHtml : option string;
  spacing : token;
}.

(** Modelled from the spec: the type of the [wkhtmltopdf] settings, which
    [gen_pdf_wk_loadConfig.js] (not among the sources) loads. The fields are
    those of section 6 of the specification and those the program reads:
    [cover], [tocXsl] and the two [contentHtml] may be absent, the [header]
    and [footer] sections themselves are there. *)
Record config_t : Type := {
  root : string;
  title : option string;
  margin : margin_config;
  cover : option string;
  tocXsl : option string;
  header : section_config;
  footer : section_config;
  assets : list string;
}.

Record cmdOptions_t : Type := {
  ebookDirectory : string;
  outputFile : string;
  zoom : number;
  javascriptDelay : number;
  build : bool;
}.

(** ** Promises

    The state of a promise when nothing is left to run. *)
Inductive promise (A : Type) : Type :=
  | Pending
  | Fulfilled (a : A)
  | Rejected (e : error).
Arguments Pending {A}.
Arguments Fulfilled {A} a.
Arguments Rejected {A} e.

Definition promise_of_result {A} (r : result A) : promise A :=
  match r with
  | Ok a => Fulfilled a
  | Throw e => Rejected e
  end.

(** [p.then(k)], where a [k] that throws rejects the new promise. *)
Definition then_ {A B} (p : promise A) (k : A → promise B) : promise B :=
  match p with
  | Pending => Pending
  | Fulfilled a => k a
  | Rejected e => Rejected e
  end.

(** [Promise.all(ps)]: rejected as soon as one of [ps] is; of several
    rejections the one of the earliest entry is taken here. *)
Fixpoint all {A} (ps : list (promise A)) : promise (list A) :=
  match ps with
  | [] => Fulfilled []
  | p :: ps' =>
      match p, all ps' with
      | Rejected e, _ => Rejected e
      | _, Rejected e => Rejected e
      | Fulfilled a, Fulfilled l => Fulfilled (a :: l)
      | _, _ => Pending
      end
  end.

(** [new Promise((resolve, reject) => ...)]: the promise is settled by the
    call the executor makes, and stays pending when it makes none. *)
Inductive settlement (A : Type) : Type :=
  | Resolve (a : A)
  | Reject (e : error).
Arguments Resolve {A} a.
Arguments Reject {A} e.

Definition new_Promise {A} (call : option (settlement A)) : promise A :=
  match call with
  | Some (Resolve a) => Fulfilled a
  | Some (Reject e) => Rejected e
  | None => Pending
  end.

(** The call made in the fulfilment handler of [p], if that handler runs. *)
Definition on_fulfilled {A B} (p : promise A) (k : A → B) : option B :=
  match p with
  | Fulfilled a => Some (k a)
  | _ => None
  end.

(** ** Outline nodes, page descriptors, file operations *)

#[local] Unset Elimination Schemes.

(** A list item of the table of contents, as the three XPath queries of
    [_processNodes] see it: the values of [./html:span/html:a/@href], the
    string of [normalize-space(./html:span/html:a/text())], and the nodes of
    [./html:ol/html:li]. *)
Inductive li : Type :=
  | Li (hrefs : list string) (text : string) (items : list li).

#[local] Set Elimination Schemes.

(** An entry of [_docList]; [doc_title] is its [title]. *)
Record doc : Type := {
  url : string;
  doc_title : string;
  level : nat;
}.

(** An item is well formed when it has a link, and so have the items below
    it. *)
Fixpoint well_formed (node : li) : bool :=
  match node with
  | Li hrefs _ items =>
      match hrefs with [] => false | _ :: _ => true end
      && forallb well_formed items
  end.

Fixpoint count_items (node : li) : nat :=
  match node with
  | Li _ _ items => S (list_sum (map count_items items))
  end.

(** The depth of nesting: 1 for an item without items below it. *)
Fixpoint depth (node : li) : nat :=
  match node with
  | Li _ _ items => S (foldr Nat.max 0 (map depth items))
  end.

Definition list_depth (nodes : list li) : nat :=
  foldr Nat.max 0 (map depth nodes).

(** The specification's flattening: the descriptor of an item, at its
    level, then those of the items below it one level deeper, then (in
    [preorder_list]) those of its next sibling. *)
Fixpoint preorder (level : nat) (node : li) : list doc :=
  match node with
  | Li hrefs text items =>
      {| url := default "" (head hrefs); doc_title := text; level := level |}
      :: flat_map (preorder (S level)) items
  end.

Definition preorder_list (level : nat) (nodes : list li) : list doc :=
  flat_map (preorder level) nodes.

Inductive fs_op : Type :=
  | WriteFile (path data : string)
  | Copy (src dest : string).

(** The path an operation writes. *)
Definition written_path (op : fs_op) : string :=
  match op with
  | WriteFile path _ => path
  | Copy _ dest => dest
  end.

(** What a run does to the world: a process spawned, a file operation
    performed or attempted, and, for a run that is cut short, a file
    operation whose transform was started and that may or may not have been
    reached when the run ended. *)
Inductive effect : Type :=
  | SpawnSync (command : string) (args : list token)
  | Fs (op : fs_op)
  | Started (op : fs_op).

(** ** The program *)

(** What the program takes from Node and from npm packages. *)
Class Platform : Type := {
  (** Node's [path] module. *)
  path_join : string → string → string;
  path_basename : string → string;
  path_extname : string → string;
  path_relative : string → string → string;
  path_normalize : string → string;
  (** The [file-url] package. *)
  fileUrl : string → string;
  (** [parseFloat] *)
  parseFloat : string → number;
  (** [fs-promise] and [less]: what reading a file gives, what compiling a
      style sheet [data] read from [filename] gives, and whether an
      operation on the file system succeeds. *)
  readFile : string → result string;
  less_render : string → string → result string;
  perform : fs_op → result unit;
  (** [isDirectory p]: [fs.existsSync(p) && fs.statSync(p).isDirectory()]. *)
  isDirectory : string → bool;
  (** The ['error'] event of [fs.createReadStream(path)], if it emits one:
      the file is missing or cannot be read. *)
  readStream_error : string → option error;
  (** The promise [stream-to-promise] makes of the [htmltidy] worker that
      the file at a path is piped into, when the read stream emits no
      ['error']. *)
  tidy : string → promise string;
  (** [xmldom] and [xpath]: the items that
      [select('//html:div[contains(@class,"toc")]/html:ol/html:li', doc)]
      gives on the parsed [xml]. *)
  toc_items : string → list li;
}.

Section Env.

Context {platform : Platform}.

Section Globals.

Variable cmdOptions : cmdOptions_t.
Variable config : config_t.

(** *** getQTCompatibleFileUrl, getAssetSrcPath *)

Definition getQTCompatibleFileUrl (path : string) : string :=
  lower_drive_letter (fileUrl path).

(** [assetValue] is [selectn(assetName, config)]. *)
Definition getAssetSrcPath (assetValue : string) : string :=
  path_join (root config) assetValue.

(** *** processAssets: the destination of every asset *)

(** [assetDestBase + '_' + i], with the counter [i] in decimal. *)
Definition suffixed (assetDestBase : string) (i : N) : string :=
  assetDestBase +:+ "_" +:+ pretty i.

(** The [for (let i = 1; ; ++i)] loop, run for at most [fuel] rounds
    from [i]: the first [assetDestBase + '_' + i] that
    [assetReverseMap] does not have, [None] when the rounds are used
    up. *)
Fixpoint first_unclaimed (fuel : nat) (assetReverseMap : gmap string string)
    (assetDestBase : string) (i : N) : option string :=
  match fuel with
  | O => None
  | S fuel' =>
      let assetDest := suffixed assetDestBase i in
      if decide (is_Some (assetReverseMap !! assetDest))
      then first_unclaimed fuel' assetReverseMap assetDestBase (N.succ i)
      else Some assetDest
  end.

Definition assetDestBase_of (assetSrc : string) : string :=
  path_join (ebookDirectory cmdOptions) (path_basename assetSrc).

(** The destination chosen for [assetSrc]. The loop gets one round more
    than [assetReverseMap] has entries, which is enough for it to
    end. *)
Definition choose_dest (assetReverseMap : gmap string string)
    (assetSrc : string) : option string :=
  let assetDestBase := assetDestBase_of assetSrc in
  if decide (is_Some (assetReverseMap !! assetDestBase))
  then first_unclaimed (S (size assetReverseMap)) assetReverseMap assetDestBase 1
  else Some assetDestBase.

(** One round of [for (const assetSrc of assets)]. *)
Definition assign_one (st : JsMap.t string * gmap string string)
    (assetSrc : string) : option (JsMap.t string * gmap string string) :=
  let '(assetMap, assetReverseMap) := st in
  assetDest ← choose_dest assetReverseMap assetSrc;
  Some (JsMap.set assetSrc assetDest assetMap,
        <[assetDest := assetSrc]> assetReverseMap).

Fixpoint assign_from (st : JsMap.t string * gmap string string)
    (assets : list string) : option (JsMap.t string * gmap string string) :=
  match assets with
  | [] => Some st
  | assetSrc :: rest => st' ← assign_one st assetSrc; assign_from st' rest
  end.

Definition assign (assets : list string) : option (JsMap.t string) :=
  fst <$> assign_from ([], ∅) assets.

(** What the specification says of the destination [assetDest] of
    [assetSrc], given the names that are [claimed]: the candidate when
    it is free, else the candidate with the first free suffix. *)
Definition chosen (claimed : string → Prop) (assetSrc assetDest : string)
  : Prop :=
  let base := assetDestBase_of assetSrc in
  (¬ claimed base ∧ assetDest = base) ∨
  (claimed base ∧
   ∃ i : N, (1 ≤ i)%N ∧ assetDest = suffixed base i ∧ ¬ claimed assetDest ∧
     ∀ j : N, (1 ≤ j < i)%N → claimed (suffixed base j)).

(** The invariant of the loop over the assets: [assetReverseMap] has
    exactly the destinations in [assetMap]. *)
Definition consistent (st : JsMap.t string * gmap string string) : Prop :=
  ∀ d, is_Some (st.2 !! d) ↔ d ∈ JsMap.values st.1.

(** The [assets] set: the configured references that are truthy, joined
    to the root, each once. *)
Definition asset_sources : list string :=
  Set_from
    (map (path_join (root config))
       (omap truthy
          (map Some (assets config)
           ++ [cover config; contentHtml (header config);
               contentHtml (footer config)]))).

(** *** processAssets: the transforms *)

(** The operation a transform ends with, when reading and compiling
    went well. *)
Definition transform (src dest : string) : result fs_op :=
  let ext := toLowerCase (path_extname src) in
  if String.eqb ext ".less" then
    let cssDest := replace_less_ext dest in
    data ← readFile src;
    css ← less_render data src;
    Ok (WriteFile cssDest css)
  else if String.eqb ext ".xsl" then
    data ← readFile src;
    let url := replace "%20" " "
                 (getQTCompatibleFileUrl (ebookDirectory cmdOptions)) in
    let processedData := replace "%url_current_dir%" url data in
    Ok (WriteFile dest processedData)
  else Ok (Copy src dest).

Definition run_transform (entry : string * string) : promise unit :=
  promise_of_result (op ← transform entry.1 entry.2; perform op).

(** The operations the transforms of [assetMap] get to, whether they
    succeed or not. *)
Definition transform_ops (assetMap : JsMap.t string) : list fs_op :=
  omap (λ entry : string * string,
          match transform entry.1 entry.2 with
          | Ok op => Some op
          | Throw _ => None
          end) assetMap.

(** The promise [processAssets] returns for [assetMap]: [resolve] is
    called when all transforms are fulfilled, [reject] is never
    called. *)
Definition processAssets_promise (assetMap : JsMap.t string)
  : promise (JsMap.t string) :=
  new_Promise
    (on_fulfilled (all (map run_transform assetMap))
       (λ _, Resolve assetMap)).

(** [None]: the suffix loop does not end. *)
Definition processAssets : option (promise (JsMap.t string)) :=
  processAssets_promise <$> assign asset_sources.

Definition processAssets_effects : list effect :=
  match assign asset_sources with
  | Some assetMap => Fs <$> transform_ops assetMap
  | None => []
  end.

(** The same operations for a run that ends while the transforms are
    under way. *)
Definition processAssets_started : list effect :=
  match assign asset_sources with
  | Some assetMap => Started <$> transform_ops assetMap
  | None => []
  end.

(** *** GitbookToWkhtmltopdf *)

Section Converter.

Variable _assetMap : JsMap.t string.

Definition _getAssetDescPath (assetValue : string) : option string :=
  JsMap.get (getAssetSrcPath assetValue) _assetMap.

(** The body of the loop of [_processNodes] for [node], and in it the
    loop for the items of [node]. An item without a link has no
    [select(...)[0]], whose [.value] is a [TypeError]. *)
Fixpoint _processNode (node : li) (level : nat) (_docList : list doc)
    {struct node} : result (list doc) :=
  match node with
  | Li hrefs text subNodes =>
      match hrefs with
      | [] => Throw (TypeError "select(...)[0].value")
      | href :: _ =>
          (fix loop (nodes : list li) (_docList : list doc)
             : result (list doc) :=
             match nodes with
             | [] => Ok _docList
             | n :: rest =>
                 _docList' ← _processNode n (S level) _docList;
                 loop rest _docList'
             end)
            subNodes
            (_docList ++ [{| url := href; doc_title := text; level := level |}])
      end
  end.

Fixpoint _processNodes (nodes : list li) (level : nat)
    (_docList : list doc) : result (list doc) :=
  match nodes with
  | [] => Ok _docList
  | node :: rest =>
      _docList' ← _processNode node level _docList;
      _processNodes rest level _docList'
  end.

(** [path.relative(cmdOptions.ebookDirectory, to)], a [TypeError] when
    [to] is [undefined]. *)
Definition relative_to_ebookDirectory (to : option string) : result string :=
  match to with
  | Some to => Ok (path_relative (ebookDirectory cmdOptions) to)
  | None => Throw (TypeError "path.relative")
  end.

(** [getQTCompatibleFileUrl(path)], a [TypeError] when [path] is
    [undefined]. *)
Definition file_url_of (path : option string) : result string :=
  match path with
  | Some path => Ok (getQTCompatibleFileUrl path)
  | None => Throw (TypeError "fileUrl")
  end.

Definition config_section (section : string) : section_config :=
  if String.eqb section "header" then header config else footer config.

Definition argsForAllPages : list token :=
  [TStr "--zoom"; TNum (zoom cmdOptions); TStr "--debug-javascript";
   TStr "--javascript-delay"; TNum (javascriptDelay cmdOptions)].

(** One round of [for (let section of ['header', 'footer'])]. *)
Definition push_section (argsForNormalPages : list token)
    (section : string) : result (list token) :=
  let sectionConfig := config_section section in
  match truthy (contentHtml sectionConfig) with
  | None => Ok argsForNormalPages
  | Some html =>
      fileurl ← file_url_of (_getAssetDescPath html);
      Ok (argsForNormalPages
          ++ [TStr ("--" +:+ section +:+ "-html"); TStr fileurl;
              TStr ("--" +:+ section +:+ "-spacing"); spacing sectionConfig])
  end.

(** The arguments [_doCommand] hands to [spawnSync('wkhtmltopdf', ...)]. *)
Definition _doCommand (_docList : list doc) : result (list token) :=
  let args : list token := [] in
  let args := args ++ [TStr "-T"; top (margin config);
                       TStr "-B"; bottom (margin config);
                       TStr "-L"; left (margin config);
                       TStr "-R"; right (margin config)] in
  let args := match truthy (title config) with
              | Some t => args ++ [TStr "--title"; TStr t]
              | None => args
              end in
  args ← match truthy (cover config) with
         | Some c =>
             rel ← relative_to_ebookDirectory (_getAssetDescPath c);
             Ok (args ++ [TStr "cover"; TStr rel; TStr "--exclude-from-outline"]
                      ++ argsForAllPages)
         | None => Ok args
         end;
  let args := args ++ TStr "toc" :: argsForAllPages in
  args ← match truthy (tocXsl config) with
         | Some x =>
             rel ← relative_to_ebookDirectory (_getAssetDescPath x);
             Ok (args ++ [TStr "--xsl-style-sheet"; TStr rel])
         | None => Ok args
         end;
  argsForNormalPages ← push_section argsForAllPages "header";
  argsForNormalPages ← push_section argsForNormalPages "footer";
  let args := foldl (λ args doc,
                       args ++ TStr (path_normalize (url doc)) :: argsForNormalPages)
                    args _docList in
  Ok (args ++ [TStr (path_relative (ebookDirectory cmdOptions)
                       (outputFile cmdOptions))]).

(** The token sequence as the specification lists it, block by
    block. [dest_of v] is the destination of the asset configured as
    [v], if [v] is configured and the asset map has it. *)
Definition dest_of (v : option string) : option string :=
  c ← truthy v; _getAssetDescPath c.

Definition margin_tokens : list token :=
  [TStr "-T"; top (margin config); TStr "-B"; bottom (margin config);
   TStr "-L"; left (margin config); TStr "-R"; right (margin config)].

Definition title_tokens : list token :=
  match truthy (title config) with
  | Some t => [TStr "--title"; TStr t]
  | None => []
  end.

Definition cover_tokens : list token :=
  match dest_of (cover config) with
  | Some dest =>
      [TStr "cover"; TStr (path_relative (ebookDirectory cmdOptions) dest);
       TStr "--exclude-from-outline"] ++ argsForAllPages
  | None => []
  end.

Definition xsl_tokens : list token :=
  match dest_of (tocXsl config) with
  | Some dest =>
      [TStr "--xsl-style-sheet";
       TStr (path_relative (ebookDirectory cmdOptions) dest)]
  | None => []
  end.

Definition toc_tokens : list token :=
  TStr "toc" :: argsForAllPages ++ xsl_tokens.

Definition section_tokens (section : string) : list token :=
  match dest_of (contentHtml (config_section section)) with
  | Some dest =>
      [TStr ("--" +:+ section +:+ "-html"); TStr (getQTCompatibleFileUrl dest);
       TStr ("--" +:+ section +:+ "-spacing");
       spacing (config_section section)]
  | None => []
  end.

(** The option set every content page gets. *)
Definition normal_page_args : list token :=
  argsForAllPages ++ section_tokens "header" ++ section_tokens "footer".

Definition page_tokens (d : doc) : list token :=
  TStr (path_normalize (url d)) :: normal_page_args.

Definition output_token : token :=
  TStr (path_relative (ebookDirectory cmdOptions) (outputFile cmdOptions)).

Definition expected_args (_docList : list doc) : list token :=
  margin_tokens ++ title_tokens ++ cover_tokens ++ toc_tokens
    ++ flat_map page_tokens _docList ++ [output_token].

(** Every asset that is configured has a destination in the asset
    map. *)
Definition resolved : Prop :=
  ∀ v c, v ∈ [cover config; tocXsl config; contentHtml (header config);
              contentHtml (footer config)] →
         truthy v = Some c → is_Some (_getAssetDescPath c).

(** [process(xml)], for the [nodes] that the query for the items of
    the [toc] list gives on [xml]. *)
Definition process (nodes : list li) : result (list token) :=
  _docList ← _processNodes nodes 1 [];
  _doCommand _docList.

End Converter.

(** *** maybeBuildBook, processSummary *)

Definition maybeBuildBook : list effect :=
  if negb (build cmdOptions) && isDirectory (ebookDirectory cmdOptions)
  then []
  else [SpawnSync "gitbook"
          [TStr "build"; TStr "."; TStr (ebookDirectory cmdOptions);
           TStr "--format"; TStr "ebook"]].

Definition summary_html : string :=
  path_join (ebookDirectory cmdOptions) "SUMMARY.html".

Definition summary_xhtml : string :=
  path_join (ebookDirectory cmdOptions) "SUMMARY.xhtml".

(** [fs.createReadStream(...).pipe(worker)] returns the worker, and
    [streamToPromise] listens to the worker only: an ['error'] of the
    read stream has no listener, and is thrown outside the promise
    chain. *)
Definition processSummary_error : option error :=
  readStream_error summary_html.

(** The promise [processSummary] returns. When the read stream fails,
    the worker never ends and the promise stays pending. *)
Definition processSummary : promise string :=
  match processSummary_error with
  | Some _ => Pending
  | None =>
      then_ (tidy summary_html)
        (λ buffer,
           then_ (promise_of_result (perform (WriteFile summary_xhtml buffer)))
             (λ _, Fulfilled buffer))
  end.

Definition processSummary_effects : list effect :=
  match processSummary_error with
  | Some _ => []
  | None =>
      match tidy summary_html with
      | Fulfilled buffer => [Fs (WriteFile summary_xhtml buffer)]
      | _ => []
      end
  end.

End Globals.

(** *** The command line and the top level *)

(** The values given to the options on the command line. *)
Record argv_t : Type := {
  arg_ebookDirectory : option string;
  arg_outputFile : option string;
  arg_zoom : option string;
  arg_javascriptDelay : option string;
  arg_noBuild : bool;
}.

(** 1.2 and 1000 as binary64. *)
Definition default_zoom : number := S754_finite false 5404319552844595 (-52).
Definition default_javascriptDelay : number := number_of_Z 1000.

(** [cmdOptions. ... .parse(process.argv)]: [filterInt] is applied to the
    value of [-j] when there is one. *)
Definition parse (argv : argv_t) : result cmdOptions_t :=
  delay ← match arg_javascriptDelay argv with
          | Some value => filterInt value
          | None => Ok default_javascriptDelay
          end;
  Ok {| ebookDirectory := default "_ebook" (arg_ebookDirectory argv);
        outputFile := default "book_wk.pdf" (arg_outputFile argv);
        zoom := from_option parseFloat default_zoom (arg_zoom argv);
        javascriptDelay := delay;
        build := negb (arg_noBuild argv) |}.

Record rawConfig_t : Type := {
  raw_root : string;
  raw_title : option string;
  raw_wkhtmltopdf : config_t;
}.

(** The [config] the first handler of the chain builds and freezes. *)
Definition make_config (rawConfig : rawConfig_t) : config_t :=
  let config := raw_wkhtmltopdf rawConfig in
  {| root := raw_root rawConfig;
     title := match truthy (title config) with
              | Some t => Some t
              | None => raw_title rawConfig
              end;
     margin := margin config;
     cover := cover config;
     tocXsl := tocXsl config;
     header := header config;
     footer := footer config;
     assets := assets config |}.

(** How a run ends. *)
Inductive ending : Type :=
  | Uncaught (e : error)
    (** an exception outside the promise chain, thrown by the parsing of
        the command line or as the ['error'] event of a stream without
        listener: Node prints it and exits with status 1 *)
  | Reported (e : error)
    (** the [.catch] handler printed [e.stack] and returned *)
  | Rendered (args : list token)
    (** [wkhtmltopdf] was spawned with [args]; what it returned is
        dropped *)
  | Unsettled
    (** the chain stays pending and neither handler runs *)
  | Hangs.
    (** a loop does not end *)

Record run : Type := {
  effects : list effect;
  ending_of : ending;
}.


(** What the program prints about an error. *)
Definition diagnostic (e : ending) : option error :=
  match e with
  | Uncaught err => Some err
  | Reported err => Some err
  | _ => None
  end.

(** The second handler and the [.catch] of the chain, on the state of
    [Promise.all([processSummary(), processAssets()])]. *)
Definition finish (cmdOptions : cmdOptions_t) (config : config_t)
    (before : list effect)
    (both : promise (string * JsMap.t string)) : run :=
  match both with
  | Pending => {| effects := before; ending_of := Unsettled |}
  | Rejected e => {| effects := before; ending_of := Reported e |}
  | Fulfilled (xml, assetMap) =>
      match process cmdOptions config assetMap (toc_items xml) with
      | Ok args =>
          {| effects := before ++ [SpawnSync "wkhtmltopdf" args];
             ending_of := Rendered args |}
      | Throw e => {| effects := before; ending_of := Reported e |}
      end
  end.

(** [Promise.all([p, q])] *)
Definition all2 {A B} (p : promise A) (q : promise B) : promise (A * B) :=
  match p, q with
  | Rejected e, _ => Rejected e
  | _, Rejected e => Rejected e
  | Fulfilled a, Fulfilled b => Fulfilled (a, b)
  | _, _ => Pending
  end.

(** The whole script, given the command line and the state of the promise
    of [configLoader.loadConfig()]. When the read stream of the summary
    fails, its exception ends the run after the book was built and the
    asset transforms were started. *)
Definition main (argv : argv_t) (loadConfig : promise rawConfig_t) : run :=
  match parse argv with
  | Throw e => {| effects := []; ending_of := Uncaught e |}
  | Ok cmdOptions =>
      match loadConfig with
      | Pending => {| effects := []; ending_of := Unsettled |}
      | Rejected e => {| effects := []; ending_of := Reported e |}
      | Fulfilled rawConfig =>
          let config := make_config rawConfig in
          let built := maybeBuildBook cmdOptions in
          match processAssets cmdOptions config with
          | None => {| effects := built; ending_of := Hangs |}
          | Some assets =>
              match processSummary_error cmdOptions with
              | Some e =>
                  {| effects := built ++ processAssets_started cmdOptions config;
                     ending_of := Uncaught e |}
              | None =>
                  finish cmdOptions config
                    (built ++ processSummary_effects cmdOptions
                           ++ processAssets_effects cmdOptions config)
                    (all2 (processSummary cmdOptions) assets)
              end
          end
      end
  end.


(** The text the specification wants in the place of the placeholder: the
    URL of the working directory with every [%20] turned into a space. *)
Definition spec_url_current_dir (cmdOptions : cmdOptions_t) : string :=
  replace_all "%20" " " (getQTCompatibleFileUrl (ebookDirectory cmdOptions)).

End Env.

(** ** Sample inputs

    A platform that reads the [path] functions as [Posix] does, on a file
    system where every file named can be read; a book, its configuration
    and its command line. *)
Module Sample.

(** [file-url] on a POSIX path in which only spaces need escaping; a
    relative path is resolved against the directory [/work]. *)
Definition file_url (path : string) : string :=
  "file://"
  +:+ replace_all " " "%20"
        (if Posix.is_absolute path then path else "/work/" +:+ path).

(** [parseFloat] on the strings of decimal digits; [NaN] elsewhere. *)
Definition parse_digits (s : string) : number :=
  if negb (String.eqb s "") && all_chars is_digit s
  then Number_of_digits false (digits_value 0 s)
  else S754_nan.

Definition read (path : string) : result string :=
  if ends_with ".xsl" path
  then Ok "<xsl:variable name='dir' select='%url_current_dir%'/>"
  else Ok "@margin: 0;".

Definition toc : list li :=
  [Li ["ch1.html"] "Chapter 1" [Li ["ch1/s1.html"] "Section 1.1" []];
   Li ["ch2.html"] "Chapter 2" []].

Definition posix : Platform :=
  {| path_join := Posix.join;
     path_basename := Posix.basename;
     path_extname := Posix.extname;
     path_relative := Posix.relative;
     path_normalize := Posix.normalize;
     fileUrl := file_url;
     parseFloat := parse_digits;
     readFile := read;
     less_render := λ data _, Ok data;
     perform := λ _, Ok ();
     isDirectory := λ _, true;
     readStream_error := λ _, None;
     tidy := λ _, Fulfilled "<html/>";
     toc_items := λ _, toc |}.

(** The same platform with other outcomes of the file operations, and
    with another table of contents. *)
Definition with_perform (outcome : fs_op → result unit) : Platform :=
  {| path_join := Posix.join;
     path_basename := Posix.basename;
     path_extname := Posix.extname;
     path_relative := Posix.relative;
     path_normalize := Posix.normalize;
     fileUrl := file_url;
     parseFloat := parse_digits;
     readFile := read;
     less_render := λ data _, Ok data;
     perform := outcome;
     isDirectory := λ _, true;
     readStream_error := λ _, None;
     tidy := λ _, Fulfilled "<html/>";
     toc_items := λ _, toc |}.


(** The same platform with another outcome of the reading and of the
    tidying of the summary. *)
Definition with_summary (read_error : option error) (tidied : promise string)
  : Platform :=
  {| path_join := Posix.join;
     path_basename := Posix.basename;
     path_extname := Posix.extname;
     path_relative := Posix.relative;
     path_normalize := Posix.normalize;
     fileUrl := file_url;
     parseFloat := parse_digits;
     readFile := read;
     less_render := λ data _, Ok data;
     perform := λ _, Ok ();
     isDirectory := λ _, true;
     readStream_error := λ _, read_error;
     tidy := λ _, tidied;
     toc_items := λ _, toc |}.

(** The copy of [book/cover.jpg] fails, as it does when the file is not
    there. *)
Definition missing_cover (op : fs_op) : result unit :=
  match op with
  | Copy src _ =>
      if String.eqb src "book/cover.jpg" then Throw (Error "ENOENT") else Ok ()
  | WriteFile _ _ => Ok ()
  end.

Definition cmdOptions : cmdOptions_t :=
  {| ebookDirectory := "_ebook"; outputFile := "book_wk.pdf";
     zoom := default_zoom; javascriptDelay := default_javascriptDelay;
     build := true |}.

(** A working directory with two spaces in its name. *)
Definition cmdOptions_spaces : cmdOptions_t :=
  {| ebookDirectory := "/home/me/my e book"; outputFile := "book_wk.pdf";
     zoom := default_zoom; javascriptDelay := default_javascriptDelay;
     build := true |}.

Definition one : token := TNum (number_of_Z 1).

(** Margins of 1, no cover, a TOC style sheet, no header and no footer
    template. *)
Definition config : config_t :=
  {| root := "book"; title := Some "The Book";
     margin := {| top := one; bottom := one; left := one; right := one |};
     cover := None; tocXsl := Some "toc.xsl";
     header := {| contentHtml := None; spacing := one |};
     footer := {| contentHtml := None; spacing := one |};
     assets := ["toc.xsl"] |}.

(** The same with a cover. *)
Definition config_cover : config_t :=
  {| root := "book"; title := Some "The Book";
     margin := {| top := one; bottom := one; left := one; right := one |};
     cover := Some "cover.jpg"; tocXsl := Some "toc.xsl";
     header := {| contentHtml := None; spacing := one |};
     footer := {| contentHtml := None; spacing := one |};
     assets := ["toc.xsl"] |}.

Definition rawConfig (config : config_t) : rawConfig_t :=
  {| raw_root := "book"; raw_title := Some "The Book";
     raw_wkhtmltopdf := config |}.

Definition assetMap : JsMap.t string := [("book/toc.xsl", "_ebook/toc.xsl")].

Definition pages : list doc :=
  [{| url := "ch1.html"; doc_title := "Chapter 1"; level := 1 |};
   {| url := "ch2.html"; doc_title := "Chapter 2"; level := 1 |}].

Definition argv : argv_t :=
  {| arg_ebookDirectory := None; arg_outputFile := None; arg_zoom := None;
     arg_javascriptDelay := None; arg_noBuild := false |}.

Definition argv_delay (value : string) : argv_t :=
  {| arg_ebookDirectory := None; arg_outputFile := None; arg_zoom := None;
     arg_javascriptDelay := Some value; arg_noBuild := false |}.

End Sample.

(** ** Further notions used in the statements *)

(** [s] has no [$], the character that starts a replacement pattern. *)
Definition no_dollar (s : string) : bool :=
  all_chars (λ c, negb (Ascii.eqb c "$")) s.

(** [pat] occurs in [s] after [before]. *)
Definition occurs_at (pat s before : string) : Prop :=
  ∃ after, s = before +:+ pat +:+ after.

(** The error of [select(...)[0].value] on an item without a link. *)
Definition no_link : error := TypeError "select(...)[0].value".

(** * Properties *)

(** ** The definitions on concrete inputs *)

Example filterInt_1000 :
  filterInt "1000" = Ok (number_of_Z 1000).
Proof. reflexivity. Qed.

Example filterInt_exp :
  filterInt "1e3" = Throw (Error ("Unable to parse " +:+ quote +:+ "1e3" +:+ quote +:+ " as an integer.")).
Proof. reflexivity. Qed.

Example replace_first_only :
  replace "%20" " " "a%20b%20c" = "a b%20c".
Proof. reflexivity. Qed.

Example replace_dollar :
  replace "X" "<$&$$>" "aXb" = "a<X$>b".
Proof. reflexivity. Qed.

Example lower_drive_C :
  lower_drive_letter "file:///C:/Users/me" = "file:///c:/Users/me".
Proof. reflexivity. Qed.

Example replace_less_ext_suffixed :
  replace_less_ext "_ebook/x.less_1" = "_ebook/x.less_1".
Proof. reflexivity. Qed.

Example Posix_basename_png :
  Posix.basename "book/a/x.png" = "x.png".
Proof. reflexivity. Qed.

Example Posix_extname_less :
  Posix.extname "book/styles/pdf.less" = ".less".
Proof. reflexivity. Qed.

Example Posix_extname_dotfile :
  Posix.extname "book/.gitignore" = "".
Proof. reflexivity. Qed.

Example Posix_join_dir :
  Posix.join "_ebook" "x.png" = "_ebook/x.png".
Proof. reflexivity. Qed.

Example Posix_join_dots :
  Posix.join "./book" "../assets/./cover.jpg" = "assets/cover.jpg".
Proof. reflexivity. Qed.

Example Posix_relative_inside :
  Posix.relative "_ebook" "_ebook/cover.jpg" = "cover.jpg".
Proof. reflexivity. Qed.

Example Posix_relative_outside :
  Posix.relative "_ebook" "book_wk.pdf" = "../book_wk.pdf".
Proof. reflexivity. Qed.

Example Posix_normalize_url :
  Posix.normalize "chapter1/./index.html" = "chapter1/index.html".
Proof. reflexivity. Qed.

Example filterInt_Infinity :
  filterInt "-Infinity" = Ok (S754_infinity true).
Proof. reflexivity. Qed.

Example filterInt_rounds :
  filterInt "9007199254740993" = Ok (number_of_Z 9007199254740992).
Proof. reflexivity. Qed.

Example filterInt_trailing_newline :
  filterInt_test (String "1" (String "010" "")) = false.
Proof. reflexivity. Qed.

Example Set_from_first_position :
  Set_from ["b"; "a"; "b"; "c"; "a"] = ["b"; "a"; "c"].
Proof. reflexivity. Qed.

(** A source named like a suffixed destination: the names stay distinct. *)
Example assign_suffix_taken :
  @assign Sample.posix Sample.cmdOptions ["q/y"; "r/y"; "p/y_1"; "s/y_1"]
  = Some [("q/y", "_ebook/y"); ("r/y", "_ebook/y_1");
          ("p/y_1", "_ebook/y_1_1"); ("s/y_1", "_ebook/y_1_2")].
Proof. by vm_compute. Qed.

Example asset_sources_sample :
  @asset_sources Sample.posix Sample.config_cover = ["book/toc.xsl"; "book/cover.jpg"].
Proof. by vm_compute. Qed.

(** A TOC style sheet that is configured but is not among the assets has
    no destination, and the builder throws. *)
Example _doCommand_unresolved_xsl :
  @_doCommand Sample.posix Sample.cmdOptions Sample.config [] Sample.pages
  = Throw (TypeError "path.relative").
Proof. by vm_compute. Qed.

Example main_sample_renders :
  ∃ args,
    ending_of (@main Sample.posix Sample.argv (Fulfilled (Sample.rawConfig Sample.config)))
    = Rendered args.
Proof. eexists. by vm_compute. Qed.

(** ** Map objects *)

Module JsMapFacts.
Import JsMap.

Lemma get_app_fresh {V} (k : string) (m1 m2 : t V) :
  k ∉ keys m1 → get k (m1 ++ m2) = get k m2.
Proof.
  induction m1 as [|[k' v'] m1 IH]; simpl; [done|].
  unfold keys; simpl. rewrite not_elem_of_cons. intros [Hne Hnot].
  destruct (String.eqb_spec k' k); [congruence|]. by apply IH.
Qed.

Lemma get_app_l {V} (k : string) (v : V) (m1 m2 : t V) :
  get k m1 = Some v → get k (m1 ++ m2) = Some v.
Proof.
  induction m1 as [|[k' v'] m1 IH]; simpl; [done|].
  by destruct (String.eqb k' k).
Qed.

Lemma get_singleton {V} (k : string) (v : V) : get k [(k, v)] = Some v.
Proof. simpl. by rewrite String.eqb_refl. Qed.

Lemma set_fresh {V} (k : string) (v : V) (m : t V) :
  k ∉ keys m → set k v m = m ++ [(k, v)].
Proof.
  induction m as [|[k' v'] m IH]; simpl; [done|].
  unfold keys; simpl. rewrite not_elem_of_cons. intros [Hne Hnot].
  destruct (String.eqb_spec k' k); [congruence|]. f_equal. by apply IH.
Qed.

Lemma get_elem_of {V} (k : string) (v : V) (m : t V) :
  get k m = Some v → (k, v) ∈ m.
Proof.
  induction m as [|[k' v'] m IH]; simpl; [done|].
  destruct (String.eqb_spec k' k) as [->|].
  - intros [= ->]. apply elem_of_cons. by left.
  - intros. apply elem_of_cons. right. by apply IH.
Qed.

End JsMapFacts.

(** ** The suffix loop *)

Lemma suffixed_inj (assetDestBase : string) : Inj (=) (=) (suffixed assetDestBase).
Proof.
  intros i j H. unfold suffixed in H.
  apply (inj (String.app assetDestBase)) in H.
  apply (inj (String.app "_")) in H.
  by apply (inj pretty) in H.
Qed.

Lemma first_unclaimed_Some fuel (rev : gmap string string) base i d :
  first_unclaimed fuel rev base i = Some d →
  ∃ k : N, (i ≤ k)%N ∧ d = suffixed base k ∧ rev !! d = None ∧
    ∀ j : N, (i ≤ j < k)%N → is_Some (rev !! suffixed base j).
Proof.
  revert i. induction fuel as [|fuel IH]; intros i; simpl; [done|].
  case_decide as Hc.
  - intros H. destruct (IH _ H) as (k & Hk & -> & Hfree & Hbelow).
    exists k. split_and!; [lia|done|done|].
    intros j Hj. destruct (decide (j = i)) as [->|]; [done|].
    apply Hbelow. lia.
  - intros [= <-]. exists i. split_and!; [lia|done| |intros; lia].
    by apply eq_None_not_Some.
Qed.

Lemma first_unclaimed_None fuel (rev : gmap string string) base i :
  first_unclaimed fuel rev base i = None →
  ∀ j : N, (i ≤ j < i + N.of_nat fuel)%N → is_Some (rev !! suffixed base j).
Proof.
  revert i. induction fuel as [|fuel IH]; intros i; simpl.
  - intros _ j Hj. lia.
  - fold (suffixed base i). case_decide as Hc; [|done].
    intros H j Hj. destruct (decide (j = i)) as [->|]; [done|].
    apply (IH _ H). lia.
Qed.

(** Once the loop has found a name, more rounds change nothing. *)
Lemma first_unclaimed_more_fuel fuel fuel' (rev : gmap string string) base i d :
  first_unclaimed fuel rev base i = Some d → fuel ≤ fuel' →
  first_unclaimed fuel' rev base i = Some d.
Proof.
  revert fuel' i. induction fuel as [|fuel IH]; intros fuel' i; simpl; [done|].
  intros H Hle. destruct fuel' as [|fuel']; [lia|]. simpl.
  case_decide; [|done]. apply IH; [done|lia].
Qed.

(** More rounds than entries: one of the names tried is free. *)
Lemma first_unclaimed_total (rev : gmap string string) base i :
  is_Some (first_unclaimed (S (size rev)) rev base i).
Proof.
  destruct (first_unclaimed (S (size rev)) rev base i) eqn:E; [by eexists|].
  exfalso.
  pose proof (first_unclaimed_None _ _ _ _ E) as Hall.
  set (cands := (λ n : nat, suffixed base (i + N.of_nat n)) <$> seq 0 (S (size rev))).
  assert (NoDup cands) as Hnd.
  { apply NoDup_fmap_2_strong; [|apply NoDup_seq].
    intros x y _ _ Hxy. apply suffixed_inj in Hxy. lia. }
  assert (list_to_set cands ⊆ dom rev) as Hsub.
  { intros d Hd. apply elem_of_list_to_set in Hd.
    apply list_elem_of_fmap in Hd as (n & -> & Hn).
    apply elem_of_seq in Hn. apply elem_of_dom, Hall. lia. }
  apply subseteq_size in Hsub.
  rewrite size_list_to_set in Hsub by done.
  rewrite size_dom in Hsub. unfold cands in Hsub.
  rewrite length_fmap, length_seq in Hsub. lia.
Qed.

(** ** The destinations of the assets *)

Section ResolverFacts.

Context {platform : Platform}.
Variable cmdOptions : cmdOptions_t.

#[local] Abbreviation assetDestBase_of := (assetDestBase_of cmdOptions).
#[local] Abbreviation choose_dest := (choose_dest cmdOptions).
#[local] Abbreviation assign_one := (assign_one cmdOptions).
#[local] Abbreviation assign_from := (assign_from cmdOptions).
#[local] Abbreviation assign := (assign cmdOptions).
#[local] Abbreviation chosen := (chosen cmdOptions).

Lemma choose_dest_total (rev : gmap string string) assetSrc :
  is_Some (choose_dest rev assetSrc).
Proof.
  unfold choose_dest. case_decide; [|by eexists].
  apply first_unclaimed_total.
Qed.

Lemma choose_dest_chosen (rev : gmap string string) assetSrc assetDest :
  choose_dest rev assetSrc = Some assetDest →
  chosen (λ d, is_Some (rev !! d)) assetSrc assetDest.
Proof.
  unfold choose_dest, chosen. case_decide as Hc.
  - intros H. right. split; [done|].
    apply first_unclaimed_Some in H as (k & Hk & -> & Hfree & Hbelow).
    exists k. split_and!; [done|done| |done].
    rewrite Hfree. by intros [? [=]].
  - intros [= <-]. by left.
Qed.

Lemma chosen_fresh claimed assetSrc assetDest :
  chosen claimed assetSrc assetDest → ¬ claimed assetDest.
Proof. intros [[? ->]|[_ (i & _ & _ & ? & _)]]; done. Qed.

Lemma chosen_ext (P Q : string → Prop) assetSrc assetDest :
  (∀ d, P d ↔ Q d) → chosen P assetSrc assetDest → chosen Q assetSrc assetDest.
Proof.
  intros HPQ [[Hn ->]|[Hc (i & Hi & -> & Hf & Hb)]]; [left|right].
  - by rewrite <-HPQ.
  - rewrite <-HPQ. split; [done|]. exists i. split_and!; [done|done|by rewrite <-HPQ|].
    intros j Hj. rewrite <-HPQ. by apply Hb.
Qed.

Lemma assign_one_spec st assetSrc :
  consistent st → assetSrc ∉ JsMap.keys st.1 →
  ∃ assetDest,
    assign_one st assetSrc
      = Some (st.1 ++ [(assetSrc, assetDest)], <[assetDest := assetSrc]> st.2) ∧
    chosen (λ d, d ∈ JsMap.values st.1) assetSrc assetDest ∧
    consistent (st.1 ++ [(assetSrc, assetDest)], <[assetDest := assetSrc]> st.2).
Proof.
  destruct st as [m rev]; simpl. intros Hcons Hfresh.
  destruct (choose_dest_total rev assetSrc) as [d Hd].
  exists d. unfold assign_one. rewrite Hd; simpl.
  rewrite JsMapFacts.set_fresh by done. split_and!; [done| |].
  - eapply chosen_ext; [apply Hcons|]. by apply choose_dest_chosen.
  - intros d'; simpl. unfold JsMap.values. rewrite fmap_app, elem_of_app; simpl.
    rewrite list_elem_of_singleton, lookup_insert_is_Some', (Hcons d'). simpl.
    unfold JsMap.values. intuition congruence.
Qed.

(** The loop appends one entry per asset and ends for every list of
    distinct sources. *)
Lemma assign_from_spec assets : ∀ st,
  consistent st → NoDup assets →
  (∀ s, s ∈ assets → s ∉ JsMap.keys st.1) →
  ∃ added : list (string * string),
    assign_from st assets
      = Some (st.1 ++ added,
              foldl (λ (r : gmap string string) e, <[e.2 := e.1]> r) st.2 added) ∧
    added.*1 = assets ∧
    consistent (st.1 ++ added,
                foldl (λ (r : gmap string string) e, <[e.2 := e.1]> r) st.2 added) ∧
    ∀ pre e post, added = pre ++ e :: post →
      chosen (λ d, d ∈ JsMap.values (st.1 ++ pre)) e.1 e.2.
Proof.
  induction assets as [|a assets IH]; intros st Hcons Hnd Hfresh.
  - exists []. simpl. rewrite app_nil_r. split_and!; [by destruct st|done|by destruct st|].
    intros pre e post H. by destruct pre.
  - apply NoDup_cons in Hnd as [Ha Hnd].
    destruct (assign_one_spec st a Hcons) as (d & Hone & Hch & Hcons').
    { apply Hfresh. by left. }
    destruct (IH _ Hcons' Hnd) as (added & Hrest & Hkeys & Hcons'' & Hall).
    { simpl. intros s Hs. unfold JsMap.keys. rewrite fmap_app, elem_of_app; simpl.
      rewrite list_elem_of_singleton. intros [Hin| ->]; [|done].
      apply (Hfresh s); [by right|done]. }
    simpl in *. exists ((a, d) :: added).
    rewrite Hone; simpl. rewrite Hrest, <-app_assoc; simpl.
    split_and!; [done|by simpl; f_equal|by rewrite <-app_assoc in Hcons''|].
    intros pre e post H. destruct pre as [|p pre]; simpl in H.
    + injection H as <- _. by rewrite app_nil_r.
    + injection H as <- ->. specialize (Hall pre e post eq_refl).
      by replace (st.1 ++ (a, d) :: pre) with ((st.1 ++ [(a, d)]) ++ pre)
        by (by rewrite <-app_assoc).
Qed.

Lemma assign_from_app st l1 l2 :
  assign_from st (l1 ++ l2) = st' ← assign_from st l1; assign_from st' l2.
Proof.
  revert st. induction l1 as [|a l1 IH]; intros st; simpl; [done|].
  destruct (assign_one st a) as [st'|]; simpl; [apply IH|done].
Qed.

Lemma consistent_empty : consistent ([], ∅).
Proof.
  intros d; simpl. rewrite lookup_empty. split; [by intros [? [=]]|].
  intros H. by apply not_elem_of_nil in H.
Qed.

Lemma assign_unique_destinations_aux (assets : list string) :
  NoDup assets → ∃ assetMap, assign assets = Some assetMap.
Proof.
  intros Hnd.
  destruct (assign_from_spec assets ([], ∅) consistent_empty Hnd)
    as (m & Hm & _).
  { intros s _ H. by apply not_elem_of_nil in H. }
  exists m. unfold assign. by rewrite Hm.
Qed.

(** C2. For every list of N distinct asset sources the loop of
    [processAssets] ends with a map of exactly those N sources to N
    pairwise distinct destinations. The destination of a source is the
    candidate [join(ebookDirectory, basename(source))] itself when no
    earlier source was given that name, and otherwise the candidate with
    the suffix [_i] for the least [i >= 1] whose name no earlier source
    was given; so the first source of the enumeration keeps its
    unsuffixed candidate. *)
Theorem assign_unique_destinations (assets : list string) :
  NoDup assets →
  ∃ assetMap : JsMap.t string,
    assign assets = Some assetMap ∧
    JsMap.keys assetMap = assets ∧
    length (JsMap.values assetMap) = length assets ∧
    NoDup (JsMap.values assetMap) ∧
    (∀ earlier assetSrc later, assets = earlier ++ assetSrc :: later →
       ∃ (claimed : JsMap.t string) (assetDest : string),
         assign earlier = Some claimed ∧
         JsMap.get assetSrc assetMap = Some assetDest ∧
         chosen (λ d, d ∈ JsMap.values claimed) assetSrc assetDest) ∧
    (∀ assetSrc later, assets = assetSrc :: later →
       JsMap.get assetSrc assetMap = Some (assetDestBase_of assetSrc)).
Proof.
  intros Hnd.
  destruct (assign_from_spec assets ([], ∅) consistent_empty Hnd)
    as (m & Hm & Hkeys & Hcons & Hall).
  { intros s _ H. by apply not_elem_of_nil in H. }
  simpl in *.
  assert (∀ earlier assetSrc later, assets = earlier ++ assetSrc :: later →
       ∃ (claimed : JsMap.t string) (assetDest : string),
         assign earlier = Some claimed ∧
         JsMap.get assetSrc m = Some assetDest ∧
         chosen (λ d, d ∈ JsMap.values claimed) assetSrc assetDest) as Hsplit.
  { intros earlier src later ->.
    apply NoDup_app in Hnd as (Hnd1 & Hdisj & Hnd2).
    apply NoDup_cons in Hnd2 as [Hsrc Hnd2].
    destruct (assign_from_spec earlier ([], ∅) consistent_empty Hnd1)
      as (m1 & Hm1 & Hkeys1 & Hcons1 & _).
    { intros s _ H. by apply not_elem_of_nil in H. }
    simpl in *.
    destruct (assign_one_spec _ src Hcons1) as (d & Hone & Hch & Hcons2).
    { simpl. unfold JsMap.keys. rewrite Hkeys1. intros H.
      apply (Hdisj src H). by left. }
    simpl in *.
    destruct (assign_from_spec later _ Hcons2 Hnd2) as (m2 & Hm2 & _).
    { simpl. intros s Hs. unfold JsMap.keys. rewrite fmap_app, elem_of_app; simpl.
      rewrite Hkeys1, list_elem_of_singleton. intros [Hin| ->]; [|done].
      apply (Hdisj s Hin). by right. }
    simpl in *.
    rewrite assign_from_app, Hm1 in Hm; simpl in Hm.
    rewrite Hone in Hm; simpl in Hm. rewrite Hm2 in Hm.
    injection Hm as <- _.
    exists m1, d. split_and!; [by unfold assign; rewrite Hm1|  |done].
    apply JsMapFacts.get_app_l. rewrite JsMapFacts.get_app_fresh.
    - apply JsMapFacts.get_singleton.
    - unfold JsMap.keys. rewrite Hkeys1. intros H. apply (Hdisj src H). by left. }
  exists m. split_and!; [by unfold assign; rewrite Hm|done| | |done|].
  - unfold JsMap.values. by rewrite length_fmap, <-Hkeys, length_fmap.
  - clear -Hall. induction m as [|e m IH] using rev_ind; [constructor|].
    unfold JsMap.values. rewrite fmap_app. apply NoDup_app. split_and!.
    + apply IH. intros pre e' post ->.
      apply (Hall pre e' (post ++ [e])). by rewrite <-app_assoc.
    + intros d Hd Hd'. simpl in Hd'. apply list_elem_of_singleton in Hd' as ->.
      by apply (chosen_fresh _ _ _ (Hall m e [] eq_refl)).
    + apply NoDup_singleton.
  - intros src later ->.
    destruct (Hsplit [] src later eq_refl) as (claimed & d & Hcl & Hget & Hch).
    injection Hcl as <-. rewrite Hget. f_equal.
    destruct Hch as [[_ ->]|[Hin _]]; [done|].
    by apply not_elem_of_nil in Hin.
Qed.

End ResolverFacts.

(** ** The flattener *)

Lemma li_nested_ind (P : li → Prop) :
  (∀ hrefs text items, Forall P items → P (Li hrefs text items)) →
  ∀ node, P node.
Proof.
  intros step. fix IH 1. intros [hrefs text items]. apply step.
  induction items as [|n items IHitems]; constructor; [apply IH|apply IHitems].
Qed.

(** The loop inside [_processNode] is [_processNodes] one level deeper. *)
Lemma _processNode_eq href hrefs text subNodes level _docList :
  _processNode (Li (href :: hrefs) text subNodes) level _docList
  = _processNodes subNodes (S level)
      (_docList ++ [{| url := href; doc_title := text; level := level |}]).
Proof.
  simpl.
  generalize (_docList ++ [{| url := href; doc_title := text; level := level |}]).
  induction subNodes as [|n rest IH]; intros acc; simpl; [done|].
  destruct (_processNode n (S level) acc); simpl; [apply IH|done].
Qed.

Lemma _processNodes_step (nodes : list li) : ∀ level _docList,
  Forall (λ node, ∀ level _docList, well_formed node = true →
            _processNode node level _docList = Ok (_docList ++ preorder level node))
         nodes →
  forallb well_formed nodes = true →
  _processNodes nodes level _docList = Ok (_docList ++ preorder_list level nodes).
Proof.
  induction nodes as [|n nodes IH]; intros level acc Hall Hwf; simpl.
  - by rewrite app_nil_r.
  - simpl in Hwf. apply andb_prop in Hwf as [Hn Hnodes].
    apply Forall_cons in Hall as [Hhead Hall].
    rewrite (Hhead _ _ Hn); simpl. rewrite (IH _ _ Hall Hnodes).
    unfold preorder_list; simpl. by rewrite app_assoc.
Qed.

Lemma _processNode_preorder node : ∀ level _docList,
  well_formed node = true →
  _processNode node level _docList = Ok (_docList ++ preorder level node).
Proof.
  induction node as [hrefs text items IH] using li_nested_ind.
  intros level acc Hwf. simpl in Hwf.
  destruct hrefs as [|href hrefs]; [done|]. simpl in Hwf.
  rewrite _processNode_eq, (_processNodes_step _ _ _ IH Hwf).
  by rewrite <-app_assoc.
Qed.

Lemma _processNodes_preorder_list nodes level _docList :
  forallb well_formed nodes = true →
  _processNodes nodes level _docList = Ok (_docList ++ preorder_list level nodes).
Proof.
  apply _processNodes_step, Forall_forall. intros node _ lvl acc.
  apply _processNode_preorder.
Qed.

Lemma preorder_length node : ∀ level, length (preorder level node) = count_items node.
Proof.
  induction node as [hrefs text items IH] using li_nested_ind.
  intros level; simpl. f_equal.
  induction items as [|n items IHitems]; simpl; [done|].
  apply Forall_cons in IH as [IHn IH].
  by rewrite length_app, IHn, (IHitems IH).
Qed.

Lemma depth_le_list_depth node nodes : node ∈ nodes → depth node ≤ list_depth nodes.
Proof.
  unfold list_depth. induction nodes as [|n nodes IH]; simpl.
  - intros H. by apply not_elem_of_nil in H.
  - rewrite elem_of_cons. intros [->|H]; [lia|]. specialize (IH H). lia.
Qed.

Lemma preorder_levels node : ∀ lvl,
  Forall (λ d : doc, lvl ≤ level d < lvl + depth node) (preorder lvl node).
Proof.
  induction node as [hrefs text items IH] using li_nested_ind.
  intros lvl. simpl preorder. apply Forall_cons. split; [simpl; lia|].
  apply Forall_flat_map, Forall_forall. intros item Hitem.
  rewrite Forall_forall in IH. specialize (IH item Hitem (S lvl)).
  pose proof (depth_le_list_depth _ _ Hitem) as Hd.
  eapply Forall_impl; [exact IH|]. unfold list_depth in Hd. simpl. intros d Hlv. lia.
Qed.

(** C3. On a well-formed nested list the flattener returns the
    specification's pre-order sequence with levels counted from 1: one
    descriptor per list item, an item's descriptor before those of its
    sub-list and these before those of its next sibling, each item of a
    sub-list one level below its parent; and no level exceeds the depth of
    the list. *)
Theorem _processNodes_flattens (nodes : list li) :
  forallb well_formed nodes = true →
  _processNodes nodes 1 [] = Ok (preorder_list 1 nodes) ∧
  length (preorder_list 1 nodes) = list_sum (map count_items nodes) ∧
  Forall (λ d : doc, 1 ≤ level d ≤ list_depth nodes) (preorder_list 1 nodes).
Proof.
  intros Hwf. split_and!.
  - by rewrite (_processNodes_preorder_list _ _ _ Hwf).
  - unfold preorder_list. induction nodes as [|n nodes IH]; simpl; [done|].
    simpl in Hwf. apply andb_prop in Hwf as [_ Hwf].
    by rewrite length_app, preorder_length, (IH Hwf).
  - unfold preorder_list. apply Forall_flat_map, Forall_forall. intros n Hn.
    pose proof (depth_le_list_depth _ _ Hn) as Hd.
    eapply Forall_impl; [apply (preorder_levels n 1)|]. simpl. intros d Hlv. lia.
Qed.

(** ** The invocation builder *)

Section BuilderFacts.

Context {platform : Platform}.
Variable cmdOptions : cmdOptions_t.
Variable config : config_t.
Variable _assetMap : JsMap.t string.

#[local] Abbreviation _getAssetDescPath := (_getAssetDescPath config _assetMap).
#[local] Abbreviation dest_of := (dest_of config _assetMap).
#[local] Abbreviation _doCommand := (_doCommand cmdOptions config _assetMap).
#[local] Abbreviation push_section := (push_section config _assetMap).
#[local] Abbreviation section_tokens := (section_tokens config _assetMap).
#[local] Abbreviation cover_tokens := (cover_tokens cmdOptions config _assetMap).
#[local] Abbreviation xsl_tokens := (xsl_tokens cmdOptions config _assetMap).
#[local] Abbreviation toc_tokens := (toc_tokens cmdOptions config _assetMap).
#[local] Abbreviation normal_page_args := (normal_page_args cmdOptions config _assetMap).
#[local] Abbreviation page_tokens := (page_tokens cmdOptions config _assetMap).
#[local] Abbreviation expected_args := (expected_args cmdOptions config _assetMap).
#[local] Abbreviation resolved := (resolved config _assetMap).

Lemma dest_of_configured v c :
  truthy v = Some c → dest_of v = _getAssetDescPath c.
Proof. unfold dest_of. by intros ->. Qed.

Lemma dest_of_missing v : truthy v = None → dest_of v = None.
Proof. unfold dest_of. by intros ->. Qed.

(** The loop over the pages appends one block per page. *)
Lemma foldl_pages (normal : list token) (_docList : list doc) : ∀ args,
  foldl (λ args doc, args ++ TStr (path_normalize (url doc)) :: normal) args _docList
  = args ++ flat_map (λ doc, TStr (path_normalize (url doc)) :: normal) _docList.
Proof.
  induction _docList as [|d docs IH]; intros args; simpl.
  - by rewrite app_nil_r.
  - rewrite IH. by rewrite <-app_assoc.
Qed.

Lemma push_section_resolved acc section :
  (∀ c, truthy (contentHtml (config_section config section)) = Some c →
        is_Some (_getAssetDescPath c)) →
  push_section acc section = Ok (acc ++ section_tokens section).
Proof.
  unfold push_section, section_tokens. intros Hres.
  destruct (truthy (contentHtml (config_section config section))) as [c|] eqn:E.
  - rewrite (dest_of_configured _ _ E).
    destruct (Hres c eq_refl) as [dest ->]. done.
  - rewrite (dest_of_missing _ E). by rewrite app_nil_r.
Qed.

(** With every configured asset resolved, the builder returns the
    specification's sequence. *)
Lemma _doCommand_expected (_docList : list doc) :
  resolved → _doCommand _docList = Ok (expected_args _docList).
Proof.
  intros Hres. unfold _doCommand, expected_args.
  assert (∀ acc,
    match truthy (cover config) with
    | Some c =>
        rel ← relative_to_ebookDirectory cmdOptions (_getAssetDescPath c);
        Ok (acc ++ [TStr "cover"; TStr rel; TStr "--exclude-from-outline"]
                ++ argsForAllPages cmdOptions)
    | None => Ok acc
    end = Ok (acc ++ cover_tokens)) as Hcover.
  { intros acc. unfold cover_tokens.
    destruct (truthy (cover config)) as [c|] eqn:E.
    - rewrite (dest_of_configured _ _ E).
      destruct (Hres (cover config) c) as [dest ->]; [set_solver|done|done].
    - rewrite (dest_of_missing _ E). by rewrite app_nil_r. }
  assert (∀ acc,
    match truthy (tocXsl config) with
    | Some x =>
        rel ← relative_to_ebookDirectory cmdOptions (_getAssetDescPath x);
        Ok (acc ++ [TStr "--xsl-style-sheet"; TStr rel])
    | None => Ok acc
    end = Ok (acc ++ xsl_tokens)) as Hxsl.
  { intros acc. unfold xsl_tokens.
    destruct (truthy (tocXsl config)) as [c|] eqn:E.
    - rewrite (dest_of_configured _ _ E).
      destruct (Hres (tocXsl config) c) as [dest ->]; [set_solver|done|done].
    - rewrite (dest_of_missing _ E). by rewrite app_nil_r. }
  rewrite Hcover; simpl. rewrite Hxsl; simpl.
  rewrite push_section_resolved; simpl.
  2:{ intros c. apply Hres. set_solver. }
  rewrite push_section_resolved; simpl.
  2:{ intros c. apply Hres. set_solver. }
  rewrite foldl_pages. f_equal.
  unfold toc_tokens, page_tokens, normal_page_args, output_token,
    margin_tokens, title_tokens.
  destruct (truthy (title config)); simpl; rewrite <-?app_assoc; simpl;
    rewrite <-?app_assoc; done.
Qed.

(** A configured asset without destination makes the builder throw. *)
Lemma _doCommand_Ok_resolved (_docList : list doc) args :
  _doCommand _docList = Ok args → resolved.
Proof.
  unfold _doCommand, push_section, config_section; simpl.
  intros H v c Hv Hc.
  destruct (_getAssetDescPath c) as [dest|] eqn:Hlook; [by eexists|]. exfalso.
  repeat (apply elem_of_cons in Hv as [->|Hv]); [| | | |by apply not_elem_of_nil in Hv].
  - rewrite Hc, Hlook in H. done.
  - rewrite Hc, Hlook in H.
    destruct (truthy (cover config)) as [c'|]; simpl in H; [|done].
    destruct (_getAssetDescPath c'); simpl in H; done.
  - rewrite Hc, Hlook in H.
    destruct (truthy (cover config)) as [c'|]; simpl in H;
      [destruct (_getAssetDescPath c'); simpl in H; [|done]|];
      (destruct (truthy (tocXsl config)) as [x|]; simpl in H;
        [destruct (_getAssetDescPath x); simpl in H; [|done]|]); done.
  - rewrite Hc, Hlook in H.
    destruct (truthy (cover config)) as [c'|]; simpl in H;
      [destruct (_getAssetDescPath c'); simpl in H; [|done]|];
      (destruct (truthy (tocXsl config)) as [x|]; simpl in H;
        [destruct (_getAssetDescPath x); simpl in H; [|done]|]);
      (destruct (truthy (contentHtml (header config))) as [h|]; simpl in H;
        [destruct (_getAssetDescPath h); simpl in H; [|done]|]); done.
Qed.

(** C1. When the builder returns, which it does when every configured
    asset has a destination, its tokens are in this order: the four
    margin options (top, bottom, left, right); the title option if a title
    is configured; the cover block if a cover is configured; the toc block,
    made of [toc], the shared per-section options and the style-sheet
    option if one is configured; for every page descriptor, in the order
    of the list, its normalized locator followed by one and the same
    per-page option set; the output path relative to the working
    directory. With no cover configured the cover block is empty. *)
Theorem _doCommand_order (_docList : list doc) :
  resolved →
  _doCommand _docList
  = Ok (margin_tokens config ++ title_tokens config ++ cover_tokens
        ++ (TStr "toc" :: argsForAllPages cmdOptions ++ xsl_tokens)
        ++ flat_map (λ d, TStr (path_normalize (url d)) :: normal_page_args) _docList
        ++ [TStr (path_relative (ebookDirectory cmdOptions) (outputFile cmdOptions))])
  ∧ (∀ c, truthy (cover config) = Some c →
       ∃ dest, _getAssetDescPath c = Some dest ∧
         cover_tokens
         = [TStr "cover"; TStr (path_relative (ebookDirectory cmdOptions) dest);
            TStr "--exclude-from-outline"] ++ argsForAllPages cmdOptions)
  ∧ (truthy (cover config) = None → cover_tokens = [])
  ∧ (∀ x, truthy (tocXsl config) = Some x →
       ∃ dest, _getAssetDescPath x = Some dest ∧
         xsl_tokens
         = [TStr "--xsl-style-sheet";
            TStr (path_relative (ebookDirectory cmdOptions) dest)])
  ∧ (truthy (tocXsl config) = None → xsl_tokens = []).
Proof.
  intros Hres. split_and!.
  - apply (_doCommand_expected _docList Hres).
  - intros c Hc. destruct (Hres (cover config) c) as [dest Hdest]; [set_solver|done|].
    exists dest. split; [done|].
    unfold cover_tokens. by rewrite (dest_of_configured _ _ Hc), Hdest.
  - intros Hc. unfold cover_tokens. by rewrite (dest_of_missing _ Hc).
  - intros x Hx. destruct (Hres (tocXsl config) x) as [dest Hdest]; [set_solver|done|].
    exists dest. split; [done|].
    unfold xsl_tokens. by rewrite (dest_of_configured _ _ Hx), Hdest.
  - intros Hx. unfold xsl_tokens. by rewrite (dest_of_missing _ Hx).
Qed.

(** C9. The builder completes without error exactly when every asset
    that is configured has a destination, so an asset that is not
    configured is never the cause of an error; and the tokens of a cover,
    of a TOC style sheet, of a header template and of a footer template
    that is not configured are left out of the sequence. *)
Theorem _doCommand_optional (_docList : list doc) :
  ((∃ args, _doCommand _docList = Ok args) ↔ resolved) ∧
  (resolved → _doCommand _docList = Ok (expected_args _docList)) ∧
  (truthy (cover config) = None → cover_tokens = []) ∧
  (truthy (tocXsl config) = None → xsl_tokens = []) ∧
  (truthy (contentHtml (header config)) = None → section_tokens "header" = []) ∧
  (truthy (contentHtml (footer config)) = None → section_tokens "footer" = []).
Proof.
  split_and!.
  - split.
    + intros [args H]. by apply (_doCommand_Ok_resolved _docList args).
    + intros Hres. eexists. by apply _doCommand_expected.
  - apply _doCommand_expected.
  - intros H. unfold cover_tokens. by rewrite (dest_of_missing _ H).
  - intros H. unfold xsl_tokens. by rewrite (dest_of_missing _ H).
  - intros H. unfold section_tokens, config_section; simpl.
    by rewrite (dest_of_missing _ H).
  - intros H. unfold section_tokens, config_section; simpl.
    by rewrite (dest_of_missing _ H).
Qed.

End BuilderFacts.

(** ** The asset transforms *)

Lemma string_app_length (s1 s2 : string) :
  String.length (s1 +:+ s2) = String.length s1 + String.length s2.
Proof. induction s1 as [|c s1 IH]; simpl; [done|]. by rewrite IH. Qed.

Lemma ends_with_spec (suffix s : string) :
  ends_with suffix s = true ↔ ∃ stem, s = stem +:+ suffix.
Proof.
  induction s as [|c r IH].
  - change (ends_with suffix "") with (String.eqb "" suffix || false).
    rewrite orb_false_r, String.eqb_eq. split.
    + intros <-. by exists "".
    + intros [[|c stem] H]; simpl in H; [done|discriminate].
  - change (ends_with suffix (String c r))
      with (String.eqb (String c r) suffix || ends_with suffix r).
    rewrite orb_true_iff, String.eqb_eq, IH. split.
    + intros [<-|[stem ->]]; [by exists ""|by exists (String c stem)].
    + intros [[|c' stem] H]; simpl in H; [by left|].
      injection H as -> ->. right. by eexists.
Qed.

Lemma replace_less_ext_stem (stem : string) :
  replace_less_ext (stem +:+ ".less") = stem +:+ ".css".
Proof.
  induction stem as [|c stem IH]; [done|].
  change (String c stem +:+ ".less") with (String c (stem +:+ ".less")).
  cbn [replace_less_ext]. fold replace_less_ext.
  destruct (String.eqb_spec (String c (stem +:+ ".less")) ".less") as [E|_].
  - apply (f_equal String.length) in E. simpl in E.
    rewrite string_app_length in E. simpl in E. lia.
  - by rewrite IH.
Qed.

Lemma replace_less_ext_other (s : string) :
  ends_with ".less" s = false → replace_less_ext s = s.
Proof.
  induction s as [|c r IH]; [done|].
  cbn [ends_with replace_less_ext]. fold ends_with replace_less_ext.
  rewrite orb_false_iff. intros [-> Hr]. by rewrite (IH Hr).
Qed.

Lemma ends_with_less_css (stem : string) : ends_with ".less" (stem +:+ ".css") = false.
Proof.
  induction stem as [|c stem IH]; [done|].
  change (String c stem +:+ ".css") with (String c (stem +:+ ".css")).
  cbn [ends_with]. fold ends_with. rewrite IH, orb_false_r.
  apply String.eqb_neq. intros E.
  assert (String.length stem = 0) as Hlen.
  { apply (f_equal String.length) in E. simpl in E.
    rewrite string_app_length in E. simpl in E. lia. }
  destruct stem; [discriminate E|discriminate Hlen].
Qed.

(** What [dest.replace(/\.less$/, '.css')] gives never ends in [.less]. *)
Lemma replace_less_ext_not_less (dest : string) :
  ends_with ".less" (replace_less_ext dest) = false.
Proof.
  destruct (ends_with ".less" dest) eqn:E.
  - apply ends_with_spec in E as [stem ->].
    rewrite replace_less_ext_stem. apply ends_with_less_css.
  - by rewrite (replace_less_ext_other _ E).
Qed.

Lemma NoDup_values_entry (m : JsMap.t string) s s' d :
  NoDup (JsMap.values m) → (s, d) ∈ m → (s', d) ∈ m → s = s'.
Proof.
  unfold JsMap.values. induction m as [|[k v] m IH]; simpl.
  - intros _ H. by apply not_elem_of_nil in H.
  - rewrite NoDup_cons, !elem_of_cons. intros [Hv Hnd] [E|H] [E'|H'].
    + congruence.
    + injection E as -> ->. destruct Hv.
      apply list_elem_of_fmap. by exists (s', v).
    + injection E' as -> ->. destruct Hv.
      apply list_elem_of_fmap. by exists (s, v).
    + by apply IH.
Qed.

Section TransformFacts.

Context {platform : Platform}.
Variable cmdOptions : cmdOptions_t.

#[local] Abbreviation transform := (transform cmdOptions).
#[local] Abbreviation transform_ops := (transform_ops cmdOptions).

(** The path a transform writes: the destination, after the rewriting of
    [.less] into [.css] for a style sheet. *)
Lemma transform_written_path src dest op :
  transform src dest = Ok op →
  (toLowerCase (path_extname src) = ".less" ∧ written_path op = replace_less_ext dest) ∨
  (toLowerCase (path_extname src) ≠ ".less" ∧ written_path op = dest).
Proof.
  unfold transform.
  destruct (String.eqb_spec (toLowerCase (path_extname src)) ".less") as [E|E].
  - destruct (readFile src); simpl; [|done].
    destruct (less_render _ _); simpl; [|done]. intros [= <-]. by left.
  - destruct (String.eqb (toLowerCase (path_extname src)) ".xsl").
    + destruct (readFile src); simpl; [|done]. intros [= <-]. by right.
    + intros [= <-]. by right.
Qed.

Lemma elem_of_transform_ops op (assetMap : JsMap.t string) :
  op ∈ transform_ops assetMap ↔
  ∃ src dest, (src, dest) ∈ assetMap ∧ transform src dest = Ok op.
Proof.
  unfold transform_ops. rewrite list_elem_of_omap. split.
  - intros ([src dest] & Hin & H). exists src, dest. split; [done|].
    simpl in H. destruct (transform src dest); by simplify_eq.
  - intros (src & dest & Hin & H). exists (src, dest). split; [done|].
    simpl. by rewrite H.
Qed.

(** X16. The compiled output of a style-sheet asset is written to
    [dest.replace(/\.less$/, '.css')], for [dest] the destination the
    asset map records. When [dest] ends in [.less] this is [dest] with
    [.css] in the place of [.less], a path other than [dest], and no
    transform of the run writes [dest] itself; a [dest] that does not end
    in [.less] is what the replacement returns unchanged. *)
Theorem less_written_path (assetMap : JsMap.t string) (src dest : string) :
  toLowerCase (path_extname src) = ".less" →
  (∀ op, transform src dest = Ok op → written_path op = replace_less_ext dest) ∧
  (ends_with ".less" dest = true →
     (∃ stem, dest = stem +:+ ".less" ∧ replace_less_ext dest = stem +:+ ".css") ∧
     replace_less_ext dest ≠ dest ∧
     (NoDup (JsMap.values assetMap) → (src, dest) ∈ assetMap →
      dest ∉ written_path <$> transform_ops assetMap)) ∧
  (ends_with ".less" dest = false → replace_less_ext dest = dest).
Proof.
  intros Hext. split_and!.
  - intros op H. by destruct (transform_written_path _ _ _ H) as [[_ ?]|[? _]].
  - intros Hends.
    assert (replace_less_ext dest ≠ dest) as Hne.
    { intros E. pose proof (replace_less_ext_not_less dest) as H.
      rewrite E in H. congruence. }
    split_and!; [|done|].
    + apply ends_with_spec in Hends as [stem ->]. exists stem.
      by rewrite replace_less_ext_stem.
    + intros Hnd Hin Hw. apply list_elem_of_fmap in Hw as (op & Hpath & Hop).
      apply elem_of_transform_ops in Hop as (src' & dest' & Hin' & Htr).
      destruct (transform_written_path _ _ _ Htr) as [[_ Hp]|[Hother Hp]].
      * pose proof (replace_less_ext_not_less dest') as H.
        rewrite <-Hp, <-Hpath in H. congruence.
      * rewrite Hp in Hpath. subst dest'.
        by rewrite (NoDup_values_entry _ _ _ _ Hnd Hin' Hin) in Hother.
  - apply replace_less_ext_other.
Qed.

End TransformFacts.

(** ** The command line *)

Lemma int_body_spec (body : string) :
  int_body body = true ↔
  body = "Infinity" ∨ (body ≠ "" ∧ all_chars is_digit body = true).
Proof.
  unfold int_body.
  rewrite orb_true_iff, andb_true_iff, negb_true_iff, String.eqb_neq, String.eqb_eq.
  tauto.
Qed.

Section CommandLineFacts.

Context {platform : Platform}.

(** C6, as amended. [filterInt] accepts exactly the strings made of an
    optional sign, [-] or [+], and then either one or more decimal digits
    or the word [Infinity]; it returns their [Number]. On every other
    value of [-j] it throws, the exception leaves [parse], and the run
    ends there, uncaught, before anything else is done. *)
Theorem filterInt_accepts (value : string) :
  (filterInt_test value = true ↔
     ∃ sign body, value = sign +:+ body ∧
       (sign = "" ∨ sign = "-" ∨ sign = "+") ∧
       (body = "Infinity" ∨ (body ≠ "" ∧ all_chars is_digit body = true))) ∧
  (filterInt_test value = true →
     filterInt value = Ok (Number_of_int_literal value)) ∧
  (filterInt_test value = false →
     ∃ message, filterInt value = Throw (Error message) ∧
       ∀ argv loadConfig, arg_javascriptDelay argv = Some value →
         main argv loadConfig
         = {| effects := []; ending_of := Uncaught (Error message) |}).
Proof.
  split_and!.
  - split.
    + destruct value as [|c r].
      * intros H. exists "", "". split_and!; [done|by left|by apply int_body_spec].
      * cbn [filterInt_test]. rewrite orb_true_iff, andb_true_iff, orb_true_iff.
        rewrite !Ascii.eqb_eq. intros [[Hsign Hbody]|Hbody].
        -- exists (String c ""), r. split_and!; [done| |by apply int_body_spec].
           destruct Hsign as [-> | ->]; auto.
        -- exists "", (String c r). split_and!; [done|by left|by apply int_body_spec].
    + intros (sign & body & -> & Hsign & Hbody). apply int_body_spec in Hbody.
      destruct Hsign as [->|[->| ->]].
      * change ("" +:+ body) with body.
        destruct body as [|c r]; [done|].
        unfold filterInt_test. by rewrite Hbody, orb_true_r.
      * change ("-" +:+ body) with (String "-" body).
        unfold filterInt_test. by rewrite Hbody.
      * change ("+" +:+ body) with (String "+" body).
        unfold filterInt_test. by rewrite Hbody.
  - unfold filterInt. by intros ->.
  - unfold filterInt. intros Hrej. rewrite Hrej. eexists. split; [done|].
    intros argv loadConfig Harg. unfold main, parse, filterInt.
    by rewrite Harg, Hrej.
Qed.

End CommandLineFacts.

(** ** The promise chain *)

Lemma Set_from_NoDup (l : list string) : NoDup (Set_from l).
Proof.
  unfold Set_from.
  assert (∀ seen : list string, NoDup seen →
    NoDup (foldl (λ seen x, if decide (x ∈ seen) then seen else seen ++ [x]) seen l))
    as H; [|apply H; constructor].
  induction l as [|x l IH]; intros seen Hseen; simpl; [done|].
  apply IH. case_decide; [done|].
  apply NoDup_app. split_and!; [done| |apply NoDup_singleton].
  intros y Hy Hy'. by apply list_elem_of_singleton in Hy' as ->.
Qed.

Section ChainFacts.

Context {platform : Platform}.

(** The promise of [processAssets] is fulfilled with the whole map or
    stays pending: [reject] is never called. *)
Lemma processAssets_promise_cases cmdOptions (assetMap : JsMap.t string) :
  (processAssets_promise cmdOptions assetMap = Fulfilled assetMap ∧
   Forall (λ entry, run_transform cmdOptions entry = Fulfilled ()) assetMap) ∨
  (processAssets_promise cmdOptions assetMap = Pending ∧
   Exists (λ entry, run_transform cmdOptions entry ≠ Fulfilled ()) assetMap).
Proof.
  unfold processAssets_promise.
  assert ((∃ l, all (map (run_transform cmdOptions) assetMap) = Fulfilled l ∧
             Forall (λ entry, run_transform cmdOptions entry = Fulfilled ()) assetMap) ∨
          ((∀ l, all (map (run_transform cmdOptions) assetMap) ≠ Fulfilled l) ∧
             Exists (λ entry, run_transform cmdOptions entry ≠ Fulfilled ()) assetMap))
    as [(l & -> & Hall)|[Hnot Hex]].
  { induction assetMap as [|entry m IH]; simpl.
    - left. by eexists.
    - destruct (run_transform cmdOptions entry) as [|[]|e] eqn:E.
      + right. split; [|by left; rewrite E].
        intros l. by destruct (all (map (run_transform cmdOptions) m)).
      + destruct IH as [(l & -> & Hall)|[Hnot Hex]].
        * left. eexists. split; [done|]. by constructor.
        * right. split; [|by right].
          intros l. destruct (all (map (run_transform cmdOptions) m)) eqn:E'; try done.
          by destruct (Hnot a).
      + right. split; [done|]. left. by rewrite E. }
  - left. by split.
  - right. split; [|done].
    destruct (all (map (run_transform cmdOptions) assetMap)) eqn:E; try done.
    by destruct (Hnot a).
Qed.

(** The loop over the assets of a configuration ends. *)
Lemma processAssets_total cmdOptions config :
  ∃ assetMap,
    assign cmdOptions (asset_sources config) = Some assetMap ∧
    processAssets cmdOptions config
    = Some (processAssets_promise cmdOptions assetMap).
Proof.
  destruct (assign_unique_destinations_aux cmdOptions (asset_sources config))
    as (m & Hm); [apply Set_from_NoDup|].
  exists m. split; [done|]. unfold processAssets. by rewrite Hm.
Qed.

Lemma renderer_not_in_built cmdOptions args :
  SpawnSync "wkhtmltopdf" args ∉ maybeBuildBook cmdOptions.
Proof.
  intros H. unfold maybeBuildBook in H. case_match.
  - by apply not_elem_of_nil in H.
  - apply list_elem_of_singleton in H. discriminate H.
Qed.

Lemma renderer_not_in_before cmdOptions config args :
  SpawnSync "wkhtmltopdf" args
    ∉ maybeBuildBook cmdOptions ++ processSummary_effects cmdOptions
        ++ processAssets_effects cmdOptions config.
Proof.
  rewrite !elem_of_app. intros [H|[H|H]].
  - by apply renderer_not_in_built in H.
  - unfold processSummary_effects in H. repeat case_match;
      try by apply not_elem_of_nil in H.
    apply list_elem_of_singleton in H. discriminate H.
  - unfold processAssets_effects in H. case_match.
    + apply list_elem_of_fmap in H as (op & H & _). discriminate H.
    + by apply not_elem_of_nil in H.
Qed.

Lemma renderer_not_in_started cmdOptions config args :
  SpawnSync "wkhtmltopdf" args
    ∉ maybeBuildBook cmdOptions ++ processAssets_started cmdOptions config.
Proof.
  rewrite elem_of_app. intros [H|H].
  - by apply renderer_not_in_built in H.
  - unfold processAssets_started in H. case_match.
    + apply list_elem_of_fmap in H as (op & H & _). discriminate H.
    + by apply not_elem_of_nil in H.
Qed.



End ChainFacts.

(** ** The theorems on the sample book *)

(** The invocation of the specification's example: margins of 1, no cover,
    a TOC style sheet, two pages. *)
Lemma _doCommand_order_witness :
  @resolved Sample.posix Sample.config Sample.assetMap ∧
  @_doCommand Sample.posix Sample.cmdOptions Sample.config Sample.assetMap Sample.pages
  = Ok [TStr "-T"; Sample.one; TStr "-B"; Sample.one;
        TStr "-L"; Sample.one; TStr "-R"; Sample.one;
        TStr "--title"; TStr "The Book";
        TStr "toc"; TStr "--zoom"; TNum default_zoom; TStr "--debug-javascript";
        TStr "--javascript-delay"; TNum default_javascriptDelay;
        TStr "--xsl-style-sheet"; TStr "toc.xsl";
        TStr "ch1.html"; TStr "--zoom"; TNum default_zoom; TStr "--debug-javascript";
        TStr "--javascript-delay"; TNum default_javascriptDelay;
        TStr "ch2.html"; TStr "--zoom"; TNum default_zoom; TStr "--debug-javascript";
        TStr "--javascript-delay"; TNum default_javascriptDelay;
        TStr "../book_wk.pdf"].
Proof.
  assert (@resolved Sample.posix Sample.config Sample.assetMap) as H.
  { intros v c Hv Hc.
    repeat (apply elem_of_cons in Hv as [->|Hv]); try discriminate Hc.
    - injection Hc as <-. by eexists.
    - by apply not_elem_of_nil in Hv. }
  split; [exact H|].
  destruct (@_doCommand_order Sample.posix Sample.cmdOptions Sample.config
              Sample.assetMap Sample.pages H) as [Hcmd _].
  rewrite Hcmd. reflexivity.
Defined.

(** The specification's example of a collision. *)
Lemma assign_unique_destinations_witness :
  NoDup ["a/x.png"; "b/x.png"] ∧
  ∃ assetMap,
    @assign Sample.posix Sample.cmdOptions ["a/x.png"; "b/x.png"] = Some assetMap ∧
    JsMap.values assetMap = ["_ebook/x.png"; "_ebook/x.png_1"] ∧
    NoDup (JsMap.values assetMap).
Proof.
  assert (NoDup ["a/x.png"; "b/x.png"]) as H.
  { apply NoDup_cons. split; [|apply NoDup_singleton].
    intros Hin. apply list_elem_of_singleton in Hin. discriminate Hin. }
  split; [exact H|].
  destruct (@assign_unique_destinations Sample.posix Sample.cmdOptions _ H)
    as (m & Hm & _ & _ & Hnd & _).
  exists m. split; [exact Hm|]. split; [|exact Hnd].
  vm_compute in Hm. injection Hm as <-. reflexivity.
Defined.

Lemma _processNodes_flattens_witness :
  forallb well_formed Sample.toc = true ∧
  _processNodes Sample.toc 1 []
  = Ok [{| url := "ch1.html"; doc_title := "Chapter 1"; level := 1 |};
        {| url := "ch1/s1.html"; doc_title := "Section 1.1"; level := 2 |};
        {| url := "ch2.html"; doc_title := "Chapter 2"; level := 1 |}].
Proof.
  split; [reflexivity|].
  destruct (_processNodes_flattens Sample.toc eq_refl) as [H _].
  rewrite H. reflexivity.
Defined.


Lemma filterInt_accepts_witness :
  filterInt_test "+42" = true ∧ filterInt "+42" = Ok (number_of_Z 42).
Proof.
  split; [reflexivity|].
  destruct (@filterInt_accepts Sample.posix "+42") as [_ [H _]].
  rewrite (H eq_refl). reflexivity.
Defined.

Lemma _doCommand_optional_witness :
  truthy (cover Sample.config) = None ∧
  @cover_tokens Sample.posix Sample.cmdOptions Sample.config Sample.assetMap = [] ∧
  @section_tokens Sample.posix Sample.config Sample.assetMap "header" = [] ∧
  @section_tokens Sample.posix Sample.config Sample.assetMap "footer" = [].
Proof.
  destruct (@_doCommand_optional Sample.posix Sample.cmdOptions Sample.config
              Sample.assetMap Sample.pages) as (_ & _ & Hcover & _ & Hheader & Hfooter).
  split; [reflexivity|].
  split; [exact (Hcover eq_refl)|].
  split; [exact (Hheader eq_refl)|exact (Hfooter eq_refl)].
Defined.

Lemma less_written_path_witness :
  toLowerCase (Posix.extname "book/a/x.less") = ".less" ∧
  ends_with ".less" "_ebook/x.less" = true ∧
  replace_less_ext "_ebook/x.less" ≠ "_ebook/x.less".
Proof.
  split; [reflexivity|]. split; [reflexivity|].
  destruct (@less_written_path Sample.posix Sample.cmdOptions
              [("book/a/x.less", "_ebook/x.less")] "book/a/x.less" "_ebook/x.less"
              eq_refl) as (_ & H & _).
  destruct (H eq_refl) as (_ & Hne & _). exact Hne.
Defined.

(** ** Where the program departs from its specification *)

(** C4. The copy of the cover fails and its transform is rejected; the
    promise of [processAssets] is then neither rejected nor fulfilled, the
    chain stays pending, and the handler at its end prints nothing. *)
Theorem processAssets_failure_unsettled :
  @run_transform (Sample.with_perform Sample.missing_cover) Sample.cmdOptions
    ("book/cover.jpg", "_ebook/cover.jpg") = Rejected (Error "ENOENT") ∧
  @processAssets (Sample.with_perform Sample.missing_cover) Sample.cmdOptions
    Sample.config_cover = Some Pending ∧
  ending_of (@main (Sample.with_perform Sample.missing_cover) Sample.argv
               (Fulfilled (Sample.rawConfig Sample.config_cover))) = Unsettled ∧
  diagnostic (ending_of (@main (Sample.with_perform Sample.missing_cover) Sample.argv
               (Fulfilled (Sample.rawConfig Sample.config_cover)))) = None.
Proof. by vm_compute. Qed.


(** C6, the claim as it stands. [-5] is accepted, and its value is
    negative. *)
Lemma filterInt_accepts_negative :
  filterInt "-5" = Ok (number_of_Z (-5)) ∧
  SFltb (number_of_Z (-5)) (S754_zero false) = true.
Proof. by vm_compute. Qed.

(** C7. A style sheet [x.less] and a file [x.css] get the distinct
    destinations [x.less] and [x.css], and both transforms write
    [x.css]. *)
Theorem written_paths_collide :
  @assign Sample.posix Sample.cmdOptions ["book/a/x.less"; "book/b/x.css"]
  = Some [("book/a/x.less", "_ebook/x.less"); ("book/b/x.css", "_ebook/x.css")] ∧
  written_path
    <$> @transform_ops Sample.posix Sample.cmdOptions
          [("book/a/x.less", "_ebook/x.less"); ("book/b/x.css", "_ebook/x.css")]
  = ["_ebook/x.css"; "_ebook/x.css"] ∧
  ¬ NoDup (written_path
             <$> @transform_ops Sample.posix Sample.cmdOptions
                   [("book/a/x.less", "_ebook/x.less");
                    ("book/b/x.css", "_ebook/x.css")]).
Proof.
  split_and!; [by vm_compute|by vm_compute|].
  vm_compute. intros H. apply NoDup_cons in H as [H _]. apply H.
  apply elem_of_cons. by left.
Qed.

(** C8. The working directory has two spaces in its name: the text written
    has the first [%20] turned into a space and the second kept, where the
    specification has both turned into spaces. *)
Theorem xsl_second_space_kept :
  @getQTCompatibleFileUrl Sample.posix "/home/me/my e book"
  = "file:///home/me/my%20e%20book" ∧
  @transform Sample.posix Sample.cmdOptions_spaces
    "book/toc.xsl" "/home/me/my e book/toc.xsl"
  = Ok (WriteFile "/home/me/my e book/toc.xsl"
          "<xsl:variable name='dir' select='file:///home/me/my e%20book'/>") ∧
  @spec_url_current_dir Sample.posix Sample.cmdOptions_spaces
  = "file:///home/me/my e book".
Proof. by vm_compute. Qed.

(** C10. The second of two style sheets named [x.less] gets the destination
    [x.less_1], the branch of the style sheets is taken for it, and its
    compiled output is written to [x.less_1]: to the path the map records,
    with no [.css] in the place of [.less]. *)
Theorem less_suffixed_not_rewritten :
  @assign Sample.posix Sample.cmdOptions ["book/a/x.less"; "book/b/x.less"]
  = Some [("book/a/x.less", "_ebook/x.less"); ("book/b/x.less", "_ebook/x.less_1")] ∧
  toLowerCase (Posix.extname "book/b/x.less") = ".less" ∧
  @transform Sample.posix Sample.cmdOptions "book/b/x.less" "_ebook/x.less_1"
  = Ok (WriteFile "_ebook/x.less_1" "@margin: 0;").
Proof. by vm_compute. Qed.

(** The file of the summary is missing: the run ends with the exception of
    the read stream, the book built and the transforms started. *)
Example main_missing_summary :
  @main (Sample.with_summary (Some (Error "ENOENT")) Pending) Sample.argv
    (Fulfilled (Sample.rawConfig Sample.config))
  = {| effects :=
         [SpawnSync "gitbook"
            [TStr "build"; TStr "."; TStr "_ebook"; TStr "--format"; TStr "ebook"];
          Started (WriteFile "_ebook/toc.xsl"
                     "<xsl:variable name='dir' select='file:///work/_ebook'/>")];
       ending_of := Uncaught (Error "ENOENT") |}.
Proof. by vm_compute. Qed.

(** * Further properties *)

(** ** The flattener on a list that is not well formed *)

Lemma _processNodes_step_throw (nodes : list li) : ∀ lvl _docList,
  Forall (λ node, ∀ lvl _docList, well_formed node = false →
            _processNode node lvl _docList = Throw no_link) nodes →
  forallb well_formed nodes = false →
  _processNodes nodes lvl _docList = Throw no_link.
Proof.
  induction nodes as [|n nodes IH]; intros lvl acc Hall Hwf; [done|].
  simpl in Hwf. apply Forall_cons in Hall as [Hhead Hall]. simpl.
  destruct (well_formed n) eqn:Hn.
  - rewrite (_processNode_preorder _ _ _ Hn). simpl. by apply IH.
  - by rewrite (Hhead _ _ eq_refl).
Qed.

Lemma _processNode_throw node : ∀ lvl _docList,
  well_formed node = false → _processNode node lvl _docList = Throw no_link.
Proof.
  induction node as [hrefs text items IH] using li_nested_ind.
  intros lvl acc Hwf. destruct hrefs as [|href hrefs]; [done|].
  rewrite _processNode_eq. simpl in Hwf. by apply _processNodes_step_throw.
Qed.

Section FlattenerFacts.

Context {platform : Platform}.

(** X1. The flattener returns exactly when every item, at every depth,
    has a link: it then appends the pre-order sequence to the list it was
    given. When some item has no link it throws the [TypeError] of
    [select(...)[0].value], and [process] throws it too, whatever the
    configuration and the asset map, before the invocation is built. *)
Theorem _processNodes_total_iff (nodes : list li) (lvl : nat) (_docList : list doc)
    (cmdOptions : cmdOptions_t) (config : config_t) (_assetMap : JsMap.t string) :
  _processNodes nodes lvl _docList
  = (if forallb well_formed nodes
     then Ok (_docList ++ preorder_list lvl nodes)
     else Throw no_link) ∧
  process cmdOptions config _assetMap nodes
  = (if forallb well_formed nodes
     then _doCommand cmdOptions config _assetMap (preorder_list 1 nodes)
     else Throw no_link).
Proof.
  assert (∀ lvl acc, _processNodes nodes lvl acc
          = (if forallb well_formed nodes
             then Ok (acc ++ preorder_list lvl nodes) else Throw no_link)) as H.
  { intros l acc. destruct (forallb well_formed nodes) eqn:Hwf.
    - by apply _processNodes_preorder_list.
    - apply _processNodes_step_throw; [|done].
      apply Forall_forall. intros node _. apply _processNode_throw. }
  split; [apply H|]. unfold process. rewrite H.
  by destruct (forallb well_formed nodes).
Qed.

End FlattenerFacts.

Example _processNodes_deep_missing_link :
  _processNodes
    [Li ["a.html"] "A" [Li ["b.html"] "B" [Li [] "C" []]]; Li ["d.html"] "D" []] 1 []
  = Throw no_link.
Proof. reflexivity. Qed.

(** ** getQTCompatibleFileUrl *)

Lemma lower_ascii_idem (c : ascii) : lower_ascii (lower_ascii c) = lower_ascii c.
Proof. by destruct c as [[] [] [] [] [] [] [] []]. Qed.

Lemma lower_ascii_not_upper (c : ascii) : is_upper (lower_ascii c) = false.
Proof. by destruct c as [[] [] [] [] [] [] [] []]. Qed.

Lemma strip_prefix_Some (p s rest : string) :
  strip_prefix p s = Some rest → s = p +:+ rest.
Proof.
  revert s. induction p as [|a p IH]; intros [|b s]; simpl; try done.
  - by intros [= <-].
  - by intros [= <-].
  - destruct (Ascii.eqb_spec a b) as [->|]; [|done].
    intros H. by rewrite (IH _ H).
Qed.

Lemma strip_prefix_app (p rest : string) : strip_prefix p (p +:+ rest) = Some rest.
Proof. induction p as [|a p IH]; simpl; [by destruct rest|]. by rewrite Ascii.eqb_refl. Qed.

Lemma toLowerCase_app (s1 s2 : string) :
  toLowerCase (s1 +:+ s2) = toLowerCase s1 +:+ toLowerCase s2.
Proof. induction s1 as [|c s1 IH]; simpl; [done|]. by rewrite IH. Qed.

(** The shape of a URL that [lower_drive_letter] changes. *)
Lemma lower_drive_letter_cases (url : string) :
  lower_drive_letter url = url ∨
  ∃ c rest, is_upper c = true ∧
    url = "file:///" +:+ String c (String ":" (String "/" rest)) ∧
    lower_drive_letter url
    = "file:///" +:+ String (lower_ascii c) (String ":" (String "/" rest)).
Proof.
  unfold lower_drive_letter.
  destruct (strip_prefix "file:///" url) as [[|c [|colon [|slash rest]]]|] eqn:E;
    try by left.
  destruct (is_upper c) eqn:Hc; [|by left].
  destruct (Ascii.eqb_spec colon ":") as [->|]; [|by left].
  destruct (Ascii.eqb_spec slash "/") as [->|]; [|by left].
  right. exists c, rest. split; [done|]. split; [|done].
  by apply strip_prefix_Some in E.
Qed.

Section FileUrlFacts.

Context {platform : Platform}.

(** X2. [getQTCompatibleFileUrl] changes the URL of [file-url] in the
    case of letters only and keeps its length; on its own result the
    lowering of the drive letter changes nothing more; and a URL that
    does not begin with [file:///], a capital letter and [:/] is returned
    as [file-url] gave it. *)
Theorem getQTCompatibleFileUrl_drive_letter (path : string) :
  toLowerCase (getQTCompatibleFileUrl path) = toLowerCase (fileUrl path) ∧
  String.length (getQTCompatibleFileUrl path) = String.length (fileUrl path) ∧
  lower_drive_letter (getQTCompatibleFileUrl path) = getQTCompatibleFileUrl path ∧
  ((∀ c rest, is_upper c = true →
      fileUrl path ≠ "file:///" +:+ String c (String ":" (String "/" rest))) →
   getQTCompatibleFileUrl path = fileUrl path).
Proof.
  unfold getQTCompatibleFileUrl.
  destruct (lower_drive_letter_cases (fileUrl path))
    as [Hsame|(c & rest & Hc & Hurl & Hlow)].
  - rewrite Hsame. split_and!; [done|done| |done].
    destruct (lower_drive_letter_cases (fileUrl path))
      as [H|(c & rest & Hc & Hurl & Hlow)]; [done|]. 
    by rewrite Hsame in Hlow |- *.
  - rewrite Hlow. split_and!.
    + rewrite Hurl, !toLowerCase_app. simpl. by rewrite lower_ascii_idem.
    + rewrite Hurl, !string_app_length. done.
    + unfold lower_drive_letter. rewrite strip_prefix_app.
      by rewrite lower_ascii_not_upper.
    + intros Hnot. by destruct (Hnot c rest Hc).
Qed.

End FileUrlFacts.

(** ** The set of asset sources *)

Lemma Set_from_elem_of (l : list string) (x : string) : x ∈ Set_from l ↔ x ∈ l.
Proof.
  unfold Set_from.
  assert (∀ seen : list string,
    x ∈ foldl (λ seen x, if decide (x ∈ seen) then seen else seen ++ [x]) seen l
    ↔ x ∈ seen ∨ x ∈ l) as H.
  { induction l as [|y l IH]; intros seen; simpl.
    - rewrite elem_of_nil. tauto.
    - rewrite IH, elem_of_cons. case_decide as Hy.
      + split; [tauto|]. intros [?|[->|?]]; auto.
      + rewrite elem_of_app, list_elem_of_singleton. tauto. }
  rewrite H, elem_of_nil. tauto.
Qed.

Lemma truthy_Some (v : option string) (c : string) :
  truthy v = Some c ↔ v = Some c ∧ c ≠ "".
Proof.
  unfold truthy. destruct v as [s|]; [|by split; [|intros []]].
  destruct (String.eqb_spec s "") as [->|Hne].
  - split; [done|]. by intros [[= <-] ?].
  - split; [by intros [= <-]|]. by intros [[= <-] _].
Qed.

Section SourcesFacts.

Context {platform : Platform}.
Variable config : config_t.

Lemma asset_sources_elem_of (s : string) :
  s ∈ asset_sources config ↔
    ∃ v, v ≠ "" ∧ s = path_join (root config) v ∧
      (v ∈ assets config ∨ cover config = Some v ∨
       contentHtml (header config) = Some v ∨
       contentHtml (footer config) = Some v).
Proof.
  unfold asset_sources.
  rewrite Set_from_elem_of, list_elem_of_In, in_map_iff.
  setoid_rewrite <-list_elem_of_In. setoid_rewrite list_elem_of_omap.
  setoid_rewrite truthy_Some. setoid_rewrite elem_of_app.
  setoid_rewrite list_elem_of_In at 1. setoid_rewrite in_map_iff.
  setoid_rewrite <-list_elem_of_In. split.
  - intros (v & <- & o & [(a & <- & Ha)|Ho] & [= ->] & Hne).
    + exists v. split_and!; auto.
    + exists v. split_and!; [done|done|].
      repeat (apply elem_of_cons in Ho as [<-|Ho]); auto.
      by apply not_elem_of_nil in Ho.
  - intros (v & Hne & -> & Hv). exists v. split; [done|]. exists (Some v).
    split; [|done].
    destruct Hv as [Hv|[Hv|[Hv|Hv]]].
    + left. by exists v.
    + right. rewrite Hv. apply elem_of_cons. by left.
    + right. rewrite Hv. apply elem_of_cons. right. apply elem_of_cons. by left.
    + right. rewrite Hv. do 2 (apply elem_of_cons; right). apply elem_of_cons. by left.
Qed.

(** X3. The asset sources are enumerated without repetition, and they
    are exactly the non-empty references among the extra assets, the
    cover and the header and footer templates, each joined to the root;
    the TOC style sheet is a source only when it is listed among the
    extra assets too. *)
Theorem asset_sources_spec :
  NoDup (asset_sources config) ∧
  ∀ s, s ∈ asset_sources config ↔
    ∃ v, v ≠ "" ∧ s = path_join (root config) v ∧
      (v ∈ assets config ∨ cover config = Some v ∨
       contentHtml (header config) = Some v ∨
       contentHtml (footer config) = Some v).
Proof. split; [apply Set_from_NoDup|apply asset_sources_elem_of]. Qed.

End SourcesFacts.

(** ** The asset map of a configuration *)

Lemma JsMap_get_is_Some {V} (k : string) (m : JsMap.t V) :
  is_Some (JsMap.get k m) ↔ k ∈ JsMap.keys m.
Proof.
  unfold JsMap.keys. induction m as [|[k' v] m IH]; simpl.
  - rewrite elem_of_nil. split; [by intros [? [=]]|done].
  - rewrite elem_of_cons. destruct (String.eqb_spec k' k) as [->|Hne].
    + split; [by left|by eexists].
    + rewrite IH. split; [by right|]. by intros [->|?].
Qed.

Section AssetMapFacts.

Context {platform : Platform}.
Variable cmdOptions : cmdOptions_t.
Variable config : config_t.

Lemma assign_keys (assets : list string) :
  NoDup assets →
  ∃ assetMap, assign cmdOptions assets = Some assetMap ∧
    JsMap.keys assetMap = assets ∧ NoDup (JsMap.values assetMap).
Proof.
  intros Hnd.
  destruct (assign_from_spec cmdOptions assets ([], ∅) (consistent_empty) Hnd)
    as (m & Hm & Hkeys & _ & Hall).
  { intros s _ H. by apply not_elem_of_nil in H. }
  simpl in *. exists m. split; [by unfold assign; rewrite Hm|]. split; [done|].
  clear -Hall. induction m as [|e m IH] using rev_ind; [constructor|].
  unfold JsMap.values. rewrite fmap_app. apply NoDup_app. split_and!.
  - apply IH. intros pre e' post ->.
    apply (Hall pre e' (post ++ [e])). by rewrite <-app_assoc.
  - intros d Hd Hd'. simpl in Hd'. apply list_elem_of_singleton in Hd' as ->.
    by apply (chosen_fresh _ _ _ _ (Hall m e [] eq_refl)).
  - apply NoDup_singleton.
Qed.

(** X4. For every configuration the loop of [processAssets] ends, with a
    map whose sources are the asset sources and whose destinations are
    pairwise distinct. In that map the cover and the header and footer
    templates that are configured always have a destination; so the
    invocation builder finds every asset it looks up exactly when the TOC
    style sheet, if one is configured, is among the asset sources. *)
Theorem processAssets_resolves :
  ∃ assetMap,
    processAssets cmdOptions config
    = Some (processAssets_promise cmdOptions assetMap) ∧
    JsMap.keys assetMap = asset_sources config ∧
    NoDup (JsMap.values assetMap) ∧
    (∀ v c, v ∈ [cover config; contentHtml (header config);
                 contentHtml (footer config)] →
            truthy v = Some c → is_Some (_getAssetDescPath config assetMap c)) ∧
    (resolved config assetMap ↔
     ∀ x, truthy (tocXsl config) = Some x →
          path_join (root config) x ∈ asset_sources config).
Proof.
  destruct (assign_keys (asset_sources config)) as (m & Hm & Hkeys & Hnd);
    [apply Set_from_NoDup|].
  exists m. split; [by unfold processAssets; rewrite Hm|].
  split; [done|]. split; [done|].
  assert (∀ v c, v ∈ [cover config; contentHtml (header config);
                      contentHtml (footer config)] →
            truthy v = Some c → is_Some (_getAssetDescPath config m c)) as Hthree.
  { intros v c Hv Hc. unfold _getAssetDescPath, getAssetSrcPath.
    apply JsMap_get_is_Some. rewrite Hkeys.
    apply (asset_sources_elem_of config). apply truthy_Some in Hc as [-> Hne].
    exists c. split_and!; [done|done|].
    repeat (apply elem_of_cons in Hv as [Hv|Hv]); auto.
    by apply not_elem_of_nil in Hv. }
  split; [done|]. split.
  - intros Hres x Hx. rewrite <-Hkeys. apply JsMap_get_is_Some.
    apply (Hres (tocXsl config) x); [|done].
    apply elem_of_cons. right. apply elem_of_cons. by left.
  - intros Hxsl v c Hv Hc.
    apply elem_of_cons in Hv as [->|Hv].
    { apply (Hthree (cover config) c); [|done]. apply elem_of_cons. by left. }
    apply elem_of_cons in Hv as [->|Hv].
    { unfold _getAssetDescPath, getAssetSrcPath.
      apply JsMap_get_is_Some. rewrite Hkeys. by apply Hxsl. }
    apply (Hthree v c); [|done]. apply elem_of_cons. by right.
Qed.

End AssetMapFacts.

(** ** The destinations as assets are added *)

Lemma suffixed_ne_base (base : string) (i : N) : suffixed base i ≠ base.
Proof.
  unfold suffixed. intros H. apply (f_equal String.length) in H.
  rewrite !string_app_length in H. simpl in H. lia.
Qed.

Section GrowthFacts.

Context {platform : Platform}.
Variable cmdOptions : cmdOptions_t.

#[local] Abbreviation assign := (assign cmdOptions).
#[local] Abbreviation assign_from := (assign_from cmdOptions).

(** X5. Assets added at the end of the enumeration leave the
    destinations of the earlier ones as they were: the map of a longer
    list of distinct sources is the map of the shorter one followed by the
    entries of the added sources. *)
Theorem assign_prefix_stable (earlier added : list string) :
  NoDup (earlier ++ added) →
  ∃ m1 m2 : JsMap.t string,
    assign earlier = Some m1 ∧
    assign (earlier ++ added) = Some (m1 ++ m2) ∧
    JsMap.keys m1 = earlier ∧ JsMap.keys m2 = added ∧
    ∀ s, s ∈ earlier → JsMap.get s (m1 ++ m2) = JsMap.get s m1.
Proof.
  intros Hnd. apply NoDup_app in Hnd as (Hnd1 & Hdisj & Hnd2).
  destruct (assign_from_spec cmdOptions earlier ([], ∅) consistent_empty Hnd1)
    as (m1 & Hm1 & Hkeys1 & Hcons1 & _).
  { intros s _ H. by apply not_elem_of_nil in H. }
  simpl in *.
  destruct (assign_from_spec cmdOptions added _ Hcons1 Hnd2)
    as (m2 & Hm2 & Hkeys2 & _).
  { simpl. unfold JsMap.keys. rewrite Hkeys1. intros s Hs Hs'. by apply (Hdisj s). }
  simpl in *. exists m1, m2. split_and!; [| |done|done|].
  - unfold assign. by rewrite Hm1.
  - unfold assign. rewrite assign_from_app, Hm1. simpl. by rewrite Hm2.
  - intros s Hs. rewrite <-Hkeys1 in Hs. apply JsMap_get_is_Some in Hs as [d Hd].
    rewrite Hd. by apply JsMapFacts.get_app_l.
Qed.

(** X6. The suffix given to a source is at most the number of sources
    enumerated before it: a destination is the candidate itself, or the
    candidate with [_i] for some [i] from 1 to that number. *)
Theorem assign_suffix_bounded (assets : list string) :
  NoDup assets →
  ∃ assetMap : JsMap.t string,
    assign assets = Some assetMap ∧
    ∀ pre src dest post, assetMap = pre ++ (src, dest) :: post →
      dest = assetDestBase_of cmdOptions src ∨
      ∃ i : N, (1 ≤ i ≤ N.of_nat (length pre))%N ∧
        dest = suffixed (assetDestBase_of cmdOptions src) i.
Proof.
  intros Hnd.
  destruct (assign_from_spec cmdOptions assets ([], ∅) consistent_empty Hnd)
    as (m & Hm & _ & _ & Hall).
  { intros s _ H. by apply not_elem_of_nil in H. }
  simpl in *. exists m. split; [by unfold assign; rewrite Hm|].
  intros pre src dest post ->.
  destruct (Hall pre (src, dest) post eq_refl) as [[_ Hd]|[Hbase (i & Hi & Hd & _ & Hbelow)]];
    [by left|right]. simpl in *.
  exists i. split; [|done]. split; [done|].
  set (base := assetDestBase_of cmdOptions src) in *.
  set (cands := base :: ((λ n : nat, suffixed base (1 + N.of_nat n)) <$> seq 0 (N.to_nat i - 1))).
  assert (NoDup cands) as Hcands.
  { apply NoDup_cons. split.
    - intros Hin. apply list_elem_of_fmap in Hin as (n & Hn & _).
      symmetry in Hn. by apply suffixed_ne_base in Hn.
    - apply NoDup_fmap_2_strong; [|apply NoDup_seq].
      intros x y _ _ Hxy. apply suffixed_inj in Hxy. lia. }
  assert (cands ⊆+ JsMap.values pre) as Hsub.
  { apply NoDup_submseteq; [done|]. intros d Hin.
    apply elem_of_cons in Hin as [->|Hin]; [done|].
    apply list_elem_of_fmap in Hin as (n & -> & Hn). apply elem_of_seq in Hn.
    apply Hbelow. lia. }
  apply submseteq_length in Hsub. unfold cands, JsMap.values in Hsub.
  simpl in Hsub. rewrite !length_fmap, length_seq in Hsub. lia.
Qed.

End GrowthFacts.

Lemma assign_prefix_stable_witness :
  NoDup (["a/x.png"; "b/x.png"] ++ ["c/x.png"]) ∧
  @assign Sample.posix Sample.cmdOptions (["a/x.png"; "b/x.png"] ++ ["c/x.png"])
  = Some ([("a/x.png", "_ebook/x.png"); ("b/x.png", "_ebook/x.png_1")]
          ++ [("c/x.png", "_ebook/x.png_2")]).
Proof.
  assert (NoDup (["a/x.png"; "b/x.png"] ++ ["c/x.png"])) as H.
  { apply (bool_decide_unpack _). by vm_compute. }
  split; [exact H|].
  destruct (@assign_prefix_stable Sample.posix Sample.cmdOptions _ _ H)
    as (m1 & m2 & Hm1 & Hm & _).
  rewrite Hm. vm_compute in Hm1. injection Hm1 as <-.
  vm_compute in Hm. by injection Hm as <-.
Defined.

Lemma assign_suffix_bounded_witness :
  NoDup ["a/x.png"; "b/x.png"; "c/x.png"] ∧
  ∃ assetMap,
    @assign Sample.posix Sample.cmdOptions ["a/x.png"; "b/x.png"; "c/x.png"]
    = Some assetMap ∧
    JsMap.values assetMap = ["_ebook/x.png"; "_ebook/x.png_1"; "_ebook/x.png_2"].
Proof.
  assert (NoDup ["a/x.png"; "b/x.png"; "c/x.png"]) as H.
  { apply (bool_decide_unpack _). by vm_compute. }
  split; [exact H|].
  destruct (@assign_suffix_bounded Sample.posix Sample.cmdOptions _ H)
    as (m & Hm & _).
  exists m. split; [exact Hm|]. vm_compute in Hm. by injection Hm as <-.
Defined.

(** ** String replacement and the template transform *)

Lemma split_first_unfold (pat s : string) :
  split_first pat s
  = match strip_prefix pat s with
    | Some rest => Some ("", rest)
    | None =>
        match s with
        | "" => None
        | String c r =>
            match split_first pat r with
            | Some (before, after) => Some (String c before, after)
            | None => None
            end
        end
    end.
Proof. by destruct s. Qed.

Lemma split_first_Some (pat s before after : string) :
  split_first pat s = Some (before, after) → s = before +:+ pat +:+ after.
Proof.
  revert before. induction s as [|c r IH]; intros before; rewrite split_first_unfold.
  - destruct (strip_prefix pat "") as [rest|] eqn:E; [|done].
    intros [= <- <-]. by apply strip_prefix_Some in E.
  - destruct (strip_prefix pat (String c r)) as [rest|] eqn:E.
    + intros [= <- <-]. by apply strip_prefix_Some in E.
    + destruct (split_first pat r) as [[b a]|]; [|done].
      intros [= <- <-].
      change (String c b +:+ pat +:+ a) with (String c (b +:+ pat +:+ a)).
      f_equal. by apply IH.
Qed.

(** No occurrence starts before the one [split_first] finds. *)
Lemma split_first_earliest (pat : string) (b' : string) : ∀ s a',
  s = b' +:+ pat +:+ a' →
  ∃ before after, split_first pat s = Some (before, after) ∧
    String.length before ≤ String.length b'.
Proof.
  induction b' as [|c b' IH]; intros s a' ->; rewrite split_first_unfold.
  - change ("" +:+ pat +:+ a') with (pat +:+ a'). rewrite strip_prefix_app.
    by exists "", a'.
  - change (String c b' +:+ pat +:+ a') with (String c (b' +:+ pat +:+ a')).
    destruct (strip_prefix pat (String c (b' +:+ pat +:+ a'))) as [rest|].
    + exists "", rest. split; [done|]. simpl. lia.
    + destruct (IH _ a' eq_refl) as (b0 & a0 & -> & Hlen).
      exists (String c b0), a0. split; [done|]. simpl. lia.
Qed.

Lemma string_app_inv_length (b b0 x y : string) :
  b +:+ x = b0 +:+ y → String.length b = String.length b0 → b = b0 ∧ x = y.
Proof.
  revert b0. induction b as [|c b IH]; intros [|c0 b0]; simpl; try done.
  intros [= -> H] [= Hlen]. destruct (IH _ H Hlen) as [-> ->]. done.
Qed.

Lemma GetSubstitution_plain (matched before after template : string) :
  no_dollar template = true →
  GetSubstitution matched before after template = template.
Proof.
  unfold no_dollar. induction template as [|d t IH]; [done|].
  cbn [all_chars GetSubstitution]. rewrite andb_true_iff, negb_true_iff.
  intros [-> Ht]. by rewrite (IH Ht).
Qed.

(** [replace] with a template that has no [$]: the string itself when the
    pattern does not occur in it, and otherwise the string with the template
    in the place of the earliest occurrence. *)
Lemma replace_plain (pat template s : string) :
  no_dollar template = true →
  ((∀ b, ¬ occurs_at pat s b) → replace pat template s = s) ∧
  (∀ b a, s = b +:+ pat +:+ a →
     (∀ b', occurs_at pat s b' → String.length b ≤ String.length b') →
     replace pat template s = b +:+ template +:+ a).
Proof.
  intros Hplain. unfold replace. split.
  - intros Hnone. destruct (split_first pat s) as [[b a]|] eqn:E; [|done].
    destruct (Hnone b). exists a. by apply split_first_Some.
  - intros b a Hs Hmin.
    destruct (split_first_earliest pat b s a Hs) as (b0 & a0 & E & Hle).
    rewrite E. pose proof (split_first_Some _ _ _ _ E) as Hs0.
    assert (String.length b ≤ String.length b0) as Hge.
    { apply Hmin. by exists a0. }
    rewrite Hs in Hs0.
    destruct (string_app_inv_length b b0 _ _ Hs0) as [<- Hrest]; [lia|].
    apply (inj (String.app pat)) in Hrest as <-.
    by rewrite GetSubstitution_plain.
Qed.

Section TemplateFacts.

Context {platform : Platform}.
Variable cmdOptions : cmdOptions_t.

(** X7. For a template ([.xsl]) asset that can be read, the transform
    writes to the destination itself. The text written is the text read
    when the placeholder does not occur in it; and when the URL put in has
    no [$], it is the text read with the URL in the place of the earliest
    placeholder, any later placeholder being kept. The URL is the one of
    [getQTCompatibleFileUrl] itself when that has no [%20]. *)
Theorem xsl_transform_substitutes (src dest data : string) :
  toLowerCase (path_extname src) = ".xsl" →
  readFile src = Ok data →
  ∃ url written,
    url = replace "%20" " " (getQTCompatibleFileUrl (ebookDirectory cmdOptions)) ∧
    transform cmdOptions src dest = Ok (WriteFile dest written) ∧
    ((∀ b, ¬ occurs_at "%20" (getQTCompatibleFileUrl (ebookDirectory cmdOptions)) b) →
     url = getQTCompatibleFileUrl (ebookDirectory cmdOptions)) ∧
    ((∀ b, ¬ occurs_at "%url_current_dir%" data b) → written = data) ∧
    (no_dollar url = true →
     ∀ b a, data = b +:+ "%url_current_dir%" +:+ a →
       (∀ b', occurs_at "%url_current_dir%" data b' →
              String.length b ≤ String.length b') →
       written = b +:+ url +:+ a).
Proof.
  intros Hext Hread. eexists _, _. split; [reflexivity|].
  unfold transform. rewrite Hext, Hread. simpl. split; [reflexivity|].
  split_and!.
  - intros Hnone. by apply (replace_plain "%20" " ").
  - intros Hnone. unfold replace.
    destruct (split_first "%url_current_dir%" data) as [[b a]|] eqn:E; [|done].
    destruct (Hnone b). exists a. by apply split_first_Some.
  - intros Hplain b a Hdata Hmin.
    by apply (replace_plain "%url_current_dir%" _ data Hplain).
Qed.

End TemplateFacts.

Lemma xsl_transform_substitutes_witness :
  toLowerCase (Posix.extname "book/toc.xsl") = ".xsl" ∧
  Sample.read "book/toc.xsl"
  = Ok "<xsl:variable name='dir' select='%url_current_dir%'/>" ∧
  @transform Sample.posix Sample.cmdOptions "book/toc.xsl" "_ebook/toc.xsl"
  = Ok (WriteFile "_ebook/toc.xsl"
          "<xsl:variable name='dir' select='file:///work/_ebook'/>").
Proof.
  split; [reflexivity|]. split; [reflexivity|].
  destruct (@xsl_transform_substitutes Sample.posix Sample.cmdOptions
              "book/toc.xsl" "_ebook/toc.xsl" _ eq_refl eq_refl)
    as (url & written & _ & Htr & _).
  rewrite Htr. vm_compute in Htr. by injection Htr as <-.
Defined.

(** ** Where a transform can fail *)

Section TransformFailureFacts.

Context {platform : Platform}.
Variable cmdOptions : cmdOptions_t.

(** X8. Before its write or copy a transform fails only in reading its
    source or, for a style sheet, in compiling it, and then with the
    error of that step: a template's substitution cannot fail, and an
    asset of any other extension is handed to the copy as it is, without
    being read. The extension is compared without regard to case. *)
Theorem transform_Throw_iff (src dest : string) (e : error) :
  (transform cmdOptions src dest = Throw e ↔
     (toLowerCase (path_extname src) = ".less" ∧
      (readFile src = Throw e ∨
       ∃ data, readFile src = Ok data ∧ less_render data src = Throw e)) ∨
     (toLowerCase (path_extname src) = ".xsl" ∧ readFile src = Throw e)) ∧
  (toLowerCase (path_extname src) ≠ ".less" →
   toLowerCase (path_extname src) ≠ ".xsl" →
   transform cmdOptions src dest = Ok (Copy src dest)).
Proof.
  unfold transform.
  destruct (String.eqb_spec (toLowerCase (path_extname src)) ".less") as [Hless|Hless].
  - rewrite Hless. split; [|done]. split.
    + destruct (readFile src) as [data|e'] eqn:Hread; simpl.
      * destruct (less_render data src) as [css|e''] eqn:Hcss; simpl; [done|].
        intros [= ->]. left. split; [done|]. right. by exists data.
      * intros [= ->]. left. split; [done|]. by left.
    + intros [[_ [Hread|(data & Hread & Hcss)]]|[? _]]; [| |done].
      * by rewrite Hread.
      * rewrite Hread. simpl. by rewrite Hcss.
  - destruct (String.eqb_spec (toLowerCase (path_extname src)) ".xsl") as [Hxsl|Hxsl].
    + rewrite Hxsl. split; [|done]. split.
      * destruct (readFile src) as [data|e'] eqn:Hread; simpl; [done|].
        intros [= ->]. by right.
      * intros [[? _]|[_ Hread]]; [done|]. by rewrite Hread.
    + split; [|done]. split; [done|]. by intros [[? _]|[? _]].
Qed.

End TransformFailureFacts.

Example transform_capital_extension :
  @transform Sample.posix Sample.cmdOptions "book/styles/PDF.LESS" "_ebook/PDF.LESS"
  = Ok (WriteFile "_ebook/PDF.LESS" "@margin: 0;").
Proof. by vm_compute. Qed.

(** ** The run as a whole *)

Section RunFacts.

Context {platform : Platform}.

Lemma finish_Rendered cmdOptions config before both args :
  ending_of (finish cmdOptions config before both) = Rendered args ↔
  ∃ xml assetMap, both = Fulfilled (xml, assetMap) ∧
    process cmdOptions config assetMap (toc_items xml) = Ok args.
Proof.
  unfold finish. destruct both as [|[xml m]|e]; simpl.
  - split; [done|]. by intros (? & ? & ? & _).
  - destruct (process cmdOptions config m (toc_items xml)) as [args'|e] eqn:E; simpl.
    + split.
      * intros [= ->]. by exists xml, m.
      * intros (xml' & m' & [= <- <-] & H). rewrite E in H. by injection H as ->.
    + split; [done|]. intros (xml' & m' & [= <- <-] & H). by rewrite E in H.
  - split; [done|]. by intros (? & ? & ? & _).
Qed.

Lemma finish_effects cmdOptions config before both :
  (∀ args, ending_of (finish cmdOptions config before both) = Rendered args →
     effects (finish cmdOptions config before both)
     = before ++ [SpawnSync "wkhtmltopdf" args]) ∧
  ((∀ args, ending_of (finish cmdOptions config before both) ≠ Rendered args) →
     effects (finish cmdOptions config before both) = before).
Proof.
  unfold finish. destruct both as [|[xml m]|e]; simpl; [done| |done].
  destruct (process cmdOptions config m (toc_items xml)) as [args'|e]; simpl.
  - split; [by intros args [= ->]|]. intros H. by destruct (H args').
  - done.
Qed.

Lemma all2_Fulfilled {A B} (p : promise A) (q : promise B) a b :
  all2 p q = Fulfilled (a, b) ↔ p = Fulfilled a ∧ q = Fulfilled b.
Proof.
  destruct p, q; simpl; split; try done; try by intros [? ?].
  - by intros [= -> ->].
  - by intros [[= ->] [= ->]].
Qed.

(** X9. The renderer is started exactly when every stage before it went
    well: the command line is accepted, the configuration is loaded, the
    summary is processed, every asset transform is fulfilled and the
    invocation is built. It is then started once, as the last thing the
    run does, with the arguments built; in every other run it is not
    started at all. *)
Theorem main_Rendered_iff (argv : argv_t) (loadConfig : promise rawConfig_t)
    (args : list token) :
  (ending_of (main argv loadConfig) = Rendered args ↔
     ∃ cmdOptions rawConfig xml assetMap,
       parse argv = Ok cmdOptions ∧ loadConfig = Fulfilled rawConfig ∧
       processSummary cmdOptions = Fulfilled xml ∧
       processAssets cmdOptions (make_config rawConfig) = Some (Fulfilled assetMap) ∧
       process cmdOptions (make_config rawConfig) assetMap (toc_items xml) = Ok args) ∧
  (SpawnSync "wkhtmltopdf" args ∈ effects (main argv loadConfig) ↔
     ending_of (main argv loadConfig) = Rendered args) ∧
  (SpawnSync "wkhtmltopdf" args ∈ effects (main argv loadConfig) →
     last (effects (main argv loadConfig)) = Some (SpawnSync "wkhtmltopdf" args)).
Proof.
  unfold main.
  destruct (parse argv) as [cmdOptions|e] eqn:Hparse.
  2:{ simpl. split_and!.
      - split; [done|]. by intros (? & ? & ? & ? & ? & _).
      - split; [|done]. intros H. by apply not_elem_of_nil in H.
      - intros H. by apply not_elem_of_nil in H. }
  destruct loadConfig as [|rawConfig|e].
  1,3: simpl; split_and!;
    [split; [done|]; by intros (? & ? & ? & ? & _ & ? & _)
    |split; [|done]; intros H; by apply not_elem_of_nil in H
    |intros H; by apply not_elem_of_nil in H].
  destruct (processAssets_total cmdOptions (make_config rawConfig)) as (m & _ & Hm).
  rewrite Hm.
  destruct (processSummary_error cmdOptions) as [err|] eqn:Herr.
  { assert (processSummary cmdOptions = Pending) as Hpend.
    { unfold processSummary. by rewrite Herr. }
    simpl. split_and!.
    - split; [done|].
      intros (c & r & xml & am & [= <-] & [= <-] & Hsum & _). congruence.
    - split; [|done]. intros H. by apply renderer_not_in_started in H.
    - intros H. by apply renderer_not_in_started in H. }
  set (before := maybeBuildBook cmdOptions ++ processSummary_effects cmdOptions
                 ++ processAssets_effects cmdOptions (make_config rawConfig)).
  set (both := all2 (processSummary cmdOptions) (processAssets_promise cmdOptions m)).
  assert (SpawnSync "wkhtmltopdf" args
            ∈ effects (finish cmdOptions (make_config rawConfig) before both) ↔
          ending_of (finish cmdOptions (make_config rawConfig) before both)
          = Rendered args) as Hmem.
  { destruct (finish_effects cmdOptions (make_config rawConfig) before both)
      as [Hyes Hno]. split.
    - intros Hin.
      destruct (ending_of (finish cmdOptions (make_config rawConfig) before both))
        as [| |args'| |] eqn:Hend;
        try (rewrite Hno in Hin by done;
             by apply renderer_not_in_before in Hin).
      rewrite (Hyes args' eq_refl), elem_of_app, list_elem_of_singleton in Hin.
      destruct Hin as [Hin|[= ->]]; [|done].
      by apply renderer_not_in_before in Hin.
    - intros Hend. rewrite (Hyes args Hend), elem_of_app, list_elem_of_singleton.
      by right. }
  split_and!.
  - rewrite finish_Rendered. split.
    + intros (xml & assetMap & Hboth & Hproc).
      apply all2_Fulfilled in Hboth as [Hsum Hassets].
      exists cmdOptions, rawConfig, xml, assetMap. by rewrite Hm, Hassets.
    + intros (c & r & xml & assetMap & [= <-] & [= <-] & Hsum & Hassets & Hproc).
      exists xml, assetMap. split; [|done]. apply all2_Fulfilled.
      rewrite Hm in Hassets. by injection Hassets as ->.
  - done.
  - intros Hin. apply Hmem in Hin.
    destruct (finish_effects cmdOptions (make_config rawConfig) before both)
      as [Hyes _].
    rewrite (Hyes args Hin). apply last_snoc.
Qed.

End RunFacts.

Section RunEndFacts.

Context {platform : Platform}.

Lemma finish_not_Uncaught cmdOptions config before both e :
  ending_of (finish cmdOptions config before both) ≠ Uncaught e.
Proof.
  unfold finish. destruct both as [|[xml m]|e']; simpl; [done| |done].
  by destruct (process cmdOptions config m (toc_items xml)).
Qed.

Lemma main_after_parse argv loadConfig cmdOptions e :
  parse argv = Ok cmdOptions →
  (ending_of (main argv loadConfig) = Uncaught e ↔
   ∃ rawConfig, loadConfig = Fulfilled rawConfig ∧
     processSummary_error cmdOptions = Some e).
Proof.
  intros Hparse. unfold main. rewrite Hparse.
  destruct loadConfig as [|rawConfig|e']; simpl.
  - split; [done|]. by intros (? & ? & _).
  - destruct (processAssets_total cmdOptions (make_config rawConfig))
      as (m & _ & ->).
    destruct (processSummary_error cmdOptions) as [err|]; simpl.
    + split.
      * intros [= ->]. by exists rawConfig.
      * by intros (? & _ & [= ->]).
    + split; [|by intros (? & _ & ?)].
      intros H. by apply finish_not_Uncaught in H.
  - split; [done|]. by intros (? & ? & _).
Qed.

Lemma parse_Throw argv e :
  parse argv = Throw e ↔
  ∃ value, arg_javascriptDelay argv = Some value ∧ filterInt value = Throw e.
Proof.
  unfold parse. destruct (arg_javascriptDelay argv) as [value|]; simpl.
  - destruct (filterInt value) as [x|e'] eqn:E; simpl.
    + split; [done|]. intros (v & [= <-] & H). by rewrite E in H.
    + split.
      * intros [= ->]. by exists value.
      * intros (v & [= <-] & H). rewrite E in H. by injection H as ->.
  - split; [done|]. by intros (v & ? & _).
Qed.

(** X10. An exception is thrown outside the promise chain, ending the
    run uncaught, in exactly two cases: a value is given to [-j] and
    [filterInt] rejects it, the exception being the one of [filterInt],
    whose message quotes the value; or the command line is accepted, the
    configuration is loaded and the read stream of [SUMMARY.html] emits
    ['error'], the exception being that error. *)
Theorem main_Uncaught_iff (argv : argv_t) (loadConfig : promise rawConfig_t)
    (e : error) :
  ending_of (main argv loadConfig) = Uncaught e ↔
  (∃ value, arg_javascriptDelay argv = Some value ∧
     filterInt_test value = false ∧
     e = Error ("Unable to parse " +:+ quote +:+ value +:+ quote
                  +:+ " as an integer.")) ∨
  (∃ cmdOptions rawConfig,
     parse argv = Ok cmdOptions ∧ loadConfig = Fulfilled rawConfig ∧
     processSummary_error cmdOptions = Some e).
Proof.
  destruct (parse argv) as [cmdOptions|e'] eqn:Hparse.
  - rewrite (main_after_parse _ _ _ _ Hparse). split.
    + intros (rawConfig & -> & Herr). right. by exists cmdOptions, rawConfig.
    + intros [(value & Harg & Htest & ->)|(c & rawConfig & [= <-] & -> & Herr)].
      * assert (parse argv = Throw (Error ("Unable to parse " +:+ quote +:+ value
                  +:+ quote +:+ " as an integer."))) as Hthrow.
        { apply parse_Throw. exists value. split; [done|].
          unfold filterInt. by rewrite Htest. }
        by rewrite Hparse in Hthrow.
      * by exists rawConfig.
  - pose proof Hparse as Hp. apply parse_Throw in Hp as (value & Harg & Hf).
    unfold main. rewrite Hparse. simpl. unfold filterInt in Hf.
    destruct (filterInt_test value) eqn:Htest; [done|]. injection Hf as <-.
    split.
    + intros [= <-]. left. by exists value.
    + intros [(v & Hv & _ & ->)|(c & r & ? & _)]; [|done].
      rewrite Harg in Hv. by injection Hv as ->.
Qed.

(** X11. Nothing is built or written unless the configuration is loaded.
    When it is, the book is rebuilt by [gitbook] before anything else,
    unless [--no-build] is given and the working directory is there: the
    directory missing, the book is rebuilt in spite of [--no-build]. *)
Theorem main_builds_book (argv : argv_t) (loadConfig : promise rawConfig_t) :
  ((∀ rawConfig, loadConfig ≠ Fulfilled rawConfig) →
     effects (main argv loadConfig) = []) ∧
  (∀ cmdOptions rawConfig,
     parse argv = Ok cmdOptions → loadConfig = Fulfilled rawConfig →
     (SpawnSync "gitbook"
        [TStr "build"; TStr "."; TStr (ebookDirectory cmdOptions);
         TStr "--format"; TStr "ebook"] ∈ effects (main argv loadConfig) ↔
      arg_noBuild argv = false ∨ isDirectory (ebookDirectory cmdOptions) = false) ∧
     (arg_noBuild argv = false ∨ isDirectory (ebookDirectory cmdOptions) = false →
      head (effects (main argv loadConfig))
      = Some (SpawnSync "gitbook"
                [TStr "build"; TStr "."; TStr (ebookDirectory cmdOptions);
                 TStr "--format"; TStr "ebook"]))).
Proof.
  split.
  - intros Hnot. unfold main. destruct (parse argv); [|done].
    destruct loadConfig as [|rawConfig|e]; [done| |done]. by destruct (Hnot rawConfig).
  - intros cmdOptions rawConfig Hparse ->.
    assert (build cmdOptions = negb (arg_noBuild argv)) as Hbuild.
    { unfold parse in Hparse.
      destruct (match arg_javascriptDelay argv with
                | Some value => filterInt value
                | None => Ok default_javascriptDelay
                end); simpl in Hparse; [|done]. by injection Hparse as <-. }
    unfold main. rewrite Hparse.
    destruct (processAssets_total cmdOptions (make_config rawConfig)) as (m & _ & ->).
    set (before := maybeBuildBook cmdOptions ++ processSummary_effects cmdOptions
                   ++ processAssets_effects cmdOptions (make_config rawConfig)).
    set (both := all2 (processSummary cmdOptions) (processAssets_promise cmdOptions m)).
    set (gitbook := SpawnSync "gitbook"
           [TStr "build"; TStr "."; TStr (ebookDirectory cmdOptions);
            TStr "--format"; TStr "ebook"]).
    assert (∃ rest,
              effects
                (match processSummary_error cmdOptions with
                 | Some e =>
                     {| effects := maybeBuildBook cmdOptions
                                   ++ processAssets_started cmdOptions
                                        (make_config rawConfig);
                        ending_of := Uncaught e |}
                 | None => finish cmdOptions (make_config rawConfig) before both
                 end)
              = maybeBuildBook cmdOptions ++ rest ∧ gitbook ∉ rest)
      as (rest & -> & Hrest).
    { destruct (processSummary_error cmdOptions) as [err|]; simpl.
      { eexists. split; [done|]. intros H.
        unfold processAssets_started in H. case_match.
        - apply list_elem_of_fmap in H as (op & H & _). discriminate H.
        - by apply not_elem_of_nil in H. }
      assert (gitbook ∉ processSummary_effects cmdOptions
                ++ processAssets_effects cmdOptions (make_config rawConfig)) as Hfs.
      { rewrite elem_of_app. intros [H|H].
        - unfold processSummary_effects in H. repeat case_match;
            try by apply not_elem_of_nil in H.
          apply list_elem_of_singleton in H. discriminate H.
        - unfold processAssets_effects in H. case_match.
          + apply list_elem_of_fmap in H as (op & H & _). discriminate H.
          + by apply not_elem_of_nil in H. }
      unfold finish. destruct both as [|[xml am]|e]; simpl.
      - by eexists.
      - destruct (process cmdOptions (make_config rawConfig) am (toc_items xml));
          simpl; [|by eexists].
        unfold before. rewrite <-!app_assoc. eexists. split; [done|].
        rewrite app_assoc, elem_of_app, list_elem_of_singleton.
        intros [H|H]; [done|discriminate H].
      - by eexists. }
    unfold maybeBuildBook. rewrite Hbuild, negb_involutive.
    destruct (arg_noBuild argv), (isDirectory (ebookDirectory cmdOptions)); simpl.
    + split; [|by intros [?|?]]. split; [done|]. by intros [?|?].
    + split; [|done]. split; [by right|]. intros _. apply elem_of_cons. by left.
    + split; [|done]. split; [by left|]. intros _. apply elem_of_cons. by left.
    + split; [|done]. split; [by left|]. intros _. apply elem_of_cons. by left.
Qed.

End RunEndFacts.

(** ** The sign of the render delay *)

Lemma binary_normalize_opp (p : positive) (e : Z) :
  binary_normalize 53 1024 (Zneg p) e false
  = SFopp (binary_normalize 53 1024 (Zpos p) e false).
Proof.
  unfold binary_normalize, binary_round, binary_round_aux.
  destruct (shl_align _ _ _) as [mz ez].
  destruct (shr_fexp _ _ _ _ _) as [mrs' e'].
  destruct (shr_fexp _ _ _ _ _) as [mrs'' e''].
  destruct (shr_m mrs''); [done| |done].
  by destruct (Z.leb _ _).
Qed.

Lemma Number_of_digits_opp (n : N) :
  Number_of_digits true n = SFopp (Number_of_digits false n).
Proof. destruct n as [|p]; [done|]. apply binary_normalize_opp. Qed.

Lemma int_body_sign (c : ascii) (r : string) :
  (c = "-" ∨ c = "+")%char → int_body (String c r) = false.
Proof. intros [-> | ->]; reflexivity. Qed.

Lemma int_body_first (c : ascii) (r : string) :
  int_body (String c r) = true → Ascii.eqb c "-" = false ∧ Ascii.eqb c "+" = false.
Proof.
  intros H. split; apply Ascii.eqb_neq; intros ->;
    rewrite int_body_sign in H; auto; done.
Qed.

(** X12. On a string that is digits or [Infinity], [filterInt] gives its
    value; with a [+] before it the same value, and with a [-] before it
    the opposite one (for [0] the negative zero). A second sign is
    rejected. *)
Theorem filterInt_sign (body : string) :
  int_body body = true →
  filterInt body = Ok (Number_of_int_literal body) ∧
  filterInt ("+" +:+ body) = Ok (Number_of_int_literal body) ∧
  filterInt ("-" +:+ body) = Ok (SFopp (Number_of_int_literal body)) ∧
  ∀ c, (c = "-" ∨ c = "+")%char →
    filterInt_test ("+" +:+ String c body) = false ∧
    filterInt_test ("-" +:+ String c body) = false.
Proof.
  intros Hbody.
  destruct body as [|c r]; [done|].
  destruct (int_body_first _ _ Hbody) as [Hminus Hplus].
  change ("+" +:+ String c r) with (String "+" (String c r)).
  change ("-" +:+ String c r) with (String "-" (String c r)).
  assert (Number_of_int_literal (String c r)
          = if String.eqb (String c r) "Infinity" then S754_infinity false
            else Number_of_digits false (digits_value 0 (String c r))) as Hval.
  { unfold Number_of_int_literal. by rewrite Hminus, Hplus. }
  split_and!.
  - unfold filterInt, filterInt_test. by rewrite Hbody, orb_true_r.
  - assert (filterInt_test (String "+" (String c r)) = true) as Htest.
    { unfold filterInt_test. by rewrite Hbody. }
    unfold filterInt. rewrite Htest. f_equal. rewrite Hval.
    change (Number_of_int_literal (String "+" (String c r)))
      with (if String.eqb (String c r) "Infinity" then S754_infinity false
            else Number_of_digits false (digits_value 0 (String c r))).
    done.
  - assert (filterInt_test (String "-" (String c r)) = true) as Htest.
    { unfold filterInt_test. by rewrite Hbody. }
    unfold filterInt. rewrite Htest. f_equal. rewrite Hval.
    change (Number_of_int_literal (String "-" (String c r)))
      with (if String.eqb (String c r) "Infinity" then S754_infinity true
            else Number_of_digits true (digits_value 0 (String c r))).
    destruct (String.eqb (String c r) "Infinity"); [done|].
    apply Number_of_digits_opp.
  - intros c' Hc'.
    change ("+" +:+ String c' (String c r)) with (String "+" (String c' (String c r))).
    change ("-" +:+ String c' (String c r)) with (String "-" (String c' (String c r))).
    unfold filterInt_test. rewrite (int_body_sign c' _ Hc'). simpl. done.
Qed.

Lemma filterInt_sign_witness :
  int_body "250" = true ∧
  filterInt "-250" = Ok (SFopp (number_of_Z 250)).
Proof.
  split; [reflexivity|].
  destruct (filterInt_sign "250" eq_refl) as (_ & _ & H & _).
  change (filterInt "-250") with (filterInt ("-" +:+ "250")).
  rewrite H. reflexivity.
Defined.

(** ** What the invocation takes from the page list *)

Lemma flat_map_urls {B} (f : string → list B) (d1 : list doc) : ∀ d2,
  map url d1 = map url d2 →
  flat_map (λ d, f (url d)) d1 = flat_map (λ d, f (url d)) d2.
Proof.
  induction d1 as [|a d1 IH]; intros [|b d2]; simpl; try done.
  intros [= Hab Hrest]. by rewrite Hab, (IH _ Hrest).
Qed.

Section PageListFacts.

Context {platform : Platform}.
Variable cmdOptions : cmdOptions_t.
Variable config : config_t.
Variable _assetMap : JsMap.t string.

(** X13. The invocation takes from the page descriptors their locators
    only, in their order: two page lists with the same locators give the
    same result, arguments or error, whatever their titles and levels.
    So do two well-formed tables of contents whose items, in pre-order,
    have the same first links. *)
Theorem _doCommand_urls_only (docs1 docs2 : list doc) :
  map url docs1 = map url docs2 →
  _doCommand cmdOptions config _assetMap docs1
  = _doCommand cmdOptions config _assetMap docs2 ∧
  ∀ nodes1 nodes2,
    forallb well_formed nodes1 = true → forallb well_formed nodes2 = true →
    preorder_list 1 nodes1 = docs1 → preorder_list 1 nodes2 = docs2 →
    process cmdOptions config _assetMap nodes1
    = process cmdOptions config _assetMap nodes2.
Proof.
  intros Hurls.
  assert (_doCommand cmdOptions config _assetMap docs1
          = _doCommand cmdOptions config _assetMap docs2) as Hcmd.
  { unfold _doCommand.
    destruct (match truthy (cover config) with Some _ => _ | None => _ end)
      as [args|e]; simpl; [|done].
    destruct (match truthy (tocXsl config) with Some _ => _ | None => _ end)
      as [args'|e]; simpl; [|done].
    destruct (push_section config _assetMap _ "header") as [normal|e]; simpl; [|done].
    destruct (push_section config _assetMap normal "footer") as [normal'|e];
      simpl; [|done].
    rewrite !foldl_pages. do 3 f_equal.
    by apply (flat_map_urls (λ u, TStr (path_normalize u) :: normal')). }
  split; [exact Hcmd|].
  intros nodes1 nodes2 Hwf1 Hwf2 <- <-. unfold process.
  rewrite (_processNodes_preorder_list _ 1 [] Hwf1).
  rewrite (_processNodes_preorder_list _ 1 [] Hwf2). simpl. exact Hcmd.
Qed.

End PageListFacts.

Lemma _doCommand_urls_only_witness :
  map url Sample.pages
  = map url [{| url := "ch1.html"; doc_title := "Preface"; level := 3 |};
             {| url := "ch2.html"; doc_title := ""; level := 7 |}] ∧
  @_doCommand Sample.posix Sample.cmdOptions Sample.config Sample.assetMap Sample.pages
  = @_doCommand Sample.posix Sample.cmdOptions Sample.config Sample.assetMap
      [{| url := "ch1.html"; doc_title := "Preface"; level := 3 |};
       {| url := "ch2.html"; doc_title := ""; level := 7 |}].
Proof.
  split; [reflexivity|].
  destruct (@_doCommand_urls_only Sample.posix Sample.cmdOptions Sample.config
              Sample.assetMap Sample.pages
              [{| url := "ch1.html"; doc_title := "Preface"; level := 3 |};
               {| url := "ch2.html"; doc_title := ""; level := 7 |}] eq_refl)
    as [H _].
  exact H.
Defined.

(** ** The writes of a run without style sheets, and the map handed on *)

Section WriteFacts.

Context {platform : Platform}.
Variable cmdOptions : cmdOptions_t.

Lemma written_paths_values (assetMap : JsMap.t string) :
  (∀ src dest, (src, dest) ∈ assetMap →
     toLowerCase (path_extname src) ≠ ".less") →
  written_path <$> transform_ops cmdOptions assetMap `sublist_of` JsMap.values assetMap.
Proof.
  unfold JsMap.values, transform_ops.
  induction assetMap as [|[src dest] m IH]; intros Hext; simpl; [done|].
  assert (written_path <$> transform_ops cmdOptions m `sublist_of` m.*2) as Hm.
  { apply IH. intros s d Hin. apply (Hext s d). by right. }
  destruct (transform cmdOptions src dest) as [op|e] eqn:E; simpl.
  - destruct (transform_written_path cmdOptions _ _ _ E) as [[Hless _]|[_ ->]].
    + destruct (Hext src dest); [by left|done].
    + by apply sublist_skip.
  - by apply sublist_cons.
Qed.

(** X14. When no asset is a style sheet, the paths written by the
    transforms of a map with pairwise distinct destinations are pairwise
    distinct, each being the destination of its asset. *)
Theorem written_paths_distinct (assetMap : JsMap.t string) :
  NoDup (JsMap.values assetMap) →
  (∀ src dest, (src, dest) ∈ assetMap →
     toLowerCase (path_extname src) ≠ ".less") →
  NoDup (written_path <$> transform_ops cmdOptions assetMap) ∧
  ∀ src dest op, (src, dest) ∈ assetMap →
    transform cmdOptions src dest = Ok op → written_path op = dest.
Proof.
  intros Hnd Hext. split.
  - eapply sublist_NoDup; [done|by apply written_paths_values].
  - intros src dest op Hin Htr.
    destruct (transform_written_path cmdOptions _ _ _ Htr) as [[Hless _]|[_ ->]];
      [by destruct (Hext src dest)|done].
Qed.

(** X15. The promise of [processAssets] is fulfilled exactly when the
    transform of every entry is fulfilled, and it is then fulfilled with
    the whole map: no part of the map is handed on. *)
Theorem processAssets_promise_Fulfilled (assetMap handed : JsMap.t string) :
  processAssets_promise cmdOptions assetMap = Fulfilled handed ↔
  handed = assetMap ∧
  Forall (λ entry, run_transform cmdOptions entry = Fulfilled ()) assetMap.
Proof.
  destruct (processAssets_promise_cases cmdOptions assetMap)
    as [[Hful Hall]|[Hpend Hex]].
  - rewrite Hful. split; [by intros [= <-]|]. by intros [-> _].
  - rewrite Hpend. split; [done|]. intros [_ Hall].
    apply Exists_exists in Hex as (entry & Hin & Hne).
    rewrite Forall_forall in Hall. by destruct (Hne (Hall entry Hin)).
Qed.

End WriteFacts.

Lemma written_paths_distinct_witness :
  NoDup (JsMap.values [("book/a/x.png", "_ebook/x.png"); ("book/b/x.png", "_ebook/x.png_1")]) ∧
  written_path
    <$> @transform_ops Sample.posix Sample.cmdOptions
          [("book/a/x.png", "_ebook/x.png"); ("book/b/x.png", "_ebook/x.png_1")]
  = ["_ebook/x.png"; "_ebook/x.png_1"] ∧
  NoDup (written_path
           <$> @transform_ops Sample.posix Sample.cmdOptions
                 [("book/a/x.png", "_ebook/x.png"); ("book/b/x.png", "_ebook/x.png_1")]).
Proof.
  assert (NoDup (JsMap.values
            [("book/a/x.png", "_ebook/x.png"); ("book/b/x.png", "_ebook/x.png_1")])) as H.
  { apply (bool_decide_unpack _). by vm_compute. }
  split; [exact H|]. split; [reflexivity|].
  destruct (@written_paths_distinct Sample.posix Sample.cmdOptions _ H) as [Hnd _].
  - intros src dest Hin.
    repeat (apply elem_of_cons in Hin as [[= -> ->]|Hin]); [done|done|].
    by apply not_elem_of_nil in Hin.
  - exact Hnd.
Defined.
